(** * Target and context lifecycle of the WebKit [Browser]

    A shallow embedding of [src/webkit/Browser.ts]: the [Browser] registry of
    targets and browser contexts, the lifecycle notification handlers, the
    [waitForTarget] wait and the [BrowserContext] view.

    JavaScript objects with identity (targets, contexts, pages, promises) live
    in stores indexed by references; the two [Map]s of the [Browser] keep
    JavaScript's insertion order; an [async] method is a coroutine that runs
    synchronously up to its next [await] and is resumed by the event loop. *)

From Stdlib Require Import ZArith String List Bool Lia.
From stdpp Require Import base option list gmap strings.

Local Open Scope Z_scope.

(** ** Values, errors and promises *)

(** A reference to a heap object (a JavaScript object identity). *)
Definition loc := nat.

(** The errors a caller can observe.  [TypeError] is what the JavaScript
    runtime throws when a property of [undefined] is read or called. *)
Inductive Error : Type :=
| TypeError (message : string)
| ProtocolError (message : string)
| AssertionError (message : string)
| TimeoutError (taskName : string) (timeout : Z).

Inductive Result (A : Type) : Type :=
| Ok (a : A)
| Err (e : Error).
Arguments Ok {A} a.
Arguments Err {A} e.

Inductive Promise (A : Type) : Type :=
| Pending
| Fulfilled (v : A)
| Rejected (e : Error).
Arguments Pending {A}.
Arguments Fulfilled {A} v.
Arguments Rejected {A} e.

(** JavaScript truthiness of a [string | undefined] value. *)
Definition truthy (v : option string) : bool :=
  match v with
  | Some s => negb (String.eqb s EmptyString)
  | None => false
  end.

(** ** JavaScript [Map]: string keys, insertion order *)

Module JsMap.

Definition t (V : Type) : Type := list (string * V).

Definition get {V} (k : string) (m : t V) : option V :=
  snd <$> List.find (fun kv => String.eqb (fst kv) k) m.

Fixpoint set {V} (k : string) (v : V) (m : t V) : t V :=
  match m with
  | [] => [(k, v)]
  | (k', v') :: m' =>
      if String.eqb k' k then (k, v) :: m' else (k', v') :: set k v m'
  end.

Definition delete {V} (k : string) (m : t V) : t V :=
  List.filter (fun kv => negb (String.eqb (fst kv) k)) m.

Definition values {V} (m : t V) : list V := List.map snd m.

End JsMap.

(** ** Objects *)

Record TargetInfo : Type := {
  targetId : string;
  browserContextId : option string;
  type : string
}.

(** A [Target] object.  [Target.ts] is not part of the sources at hand; the
    fields are the ones [Browser.ts] reads and writes ([_pagePromise],
    [_closedCallback], [browserContext()]).  [_closed] records that the
    closed-callback ran. *)
Record TargetObj : Type := {
  _targetInfo : TargetInfo;
  _browserContext : loc;
  _pagePromise : option nat;
  _closed : bool
}.

Record BrowserContextObj : Type := {
  _id : option string
}.

(** A [Page] object, reduced to the binding that
    [_swapTargetOnNavigation] replaces. *)
Record PageObj : Type := {
  _session : string;
  _target : option loc
}.

(** The closure [check] of [waitForTarget]: it captures the caller's
    predicate and the [resolve] function of the wait's promise.  Each call
    creates one closure and one promise, so the promise reference also
    serves as the identity of the closure. *)
Record Listener : Type := {
  check_resolve : nat;
  check_predicate : loc -> TargetObj -> bool
}.

(** The event names of [./events] (not part of the sources at hand) are a
    parameter of the development. *)
Record EventNames : Type := {
  TargetCreated : string;
  TargetDestroyed : string;
  TargetChanged : string
}.

Record EventsTable : Type := {
  Events_Browser : EventNames;
  Events_BrowserContext : EventNames
}.

(** ** Commands and the trace of operations *)

Inductive Command : Type :=
| Browser_createContext
| Browser_deleteContext (browserContextId : option string)
| Browser_createPage (browserContextId : option string).

Inductive Emitter : Type :=
| OnBrowser
| OnContext (context : loc).

(** The operations a method performs on the registries and on its
    collaborators, in program order. *)
Inductive Op : Type :=
| OpSend (c : Command)
| OpContextsSet (browserContextId : string) (context : loc)
| OpContextsDelete (browserContextId : option string)
| OpTargetsSet (targetId : string) (target : loc)
| OpTargetsDelete (targetId : string)
| OpClosedCallback (target : loc)
| OpSwapTarget (page : loc) (session : string) (target : option loc)
| OpEmit (emitter : Emitter) (event : string) (target : loc).

(** ** The state of a [Browser] and of the objects reachable from it *)

Record State : Type := {
  _defaultContext : loc;
  _contexts : JsMap.t loc;
  _targets : JsMap.t loc;
  _events : gmap string (list Listener);
  contexts_heap : gmap loc BrowserContextObj;
  targets_heap : gmap loc TargetObj;
  pages_heap : gmap loc PageObj;
  page_promises : gmap nat (Promise loc);
  target_promises : gmap nat (Promise loc);
  now : Z;
  trace : list Op
}.

Definition set_contexts (f : JsMap.t loc -> JsMap.t loc) (s : State) : State :=
  {| _defaultContext := _defaultContext s; _contexts := f (_contexts s);
     _targets := _targets s; _events := _events s;
     contexts_heap := contexts_heap s; targets_heap := targets_heap s;
     pages_heap := pages_heap s; page_promises := page_promises s;
     target_promises := target_promises s; now := now s; trace := trace s |}.

Definition set_targets (f : JsMap.t loc -> JsMap.t loc) (s : State) : State :=
  {| _defaultContext := _defaultContext s; _contexts := _contexts s;
     _targets := f (_targets s); _events := _events s;
     contexts_heap := contexts_heap s; targets_heap := targets_heap s;
     pages_heap := pages_heap s; page_promises := page_promises s;
     target_promises := target_promises s; now := now s; trace := trace s |}.

Definition set_events
    (f : gmap string (list Listener) -> gmap string (list Listener))
    (s : State) : State :=
  {| _defaultContext := _defaultContext s; _contexts := _contexts s;
     _targets := _targets s; _events := f (_events s);
     contexts_heap := contexts_heap s; targets_heap := targets_heap s;
     pages_heap := pages_heap s; page_promises := page_promises s;
     target_promises := target_promises s; now := now s; trace := trace s |}.

Definition set_contexts_heap
    (f : gmap loc BrowserContextObj -> gmap loc BrowserContextObj)
    (s : State) : State :=
  {| _defaultContext := _defaultContext s; _contexts := _contexts s;
     _targets := _targets s; _events := _events s;
     contexts_heap := f (contexts_heap s); targets_heap := targets_heap s;
     pages_heap := pages_heap s; page_promises := page_promises s;
     target_promises := target_promises s; now := now s; trace := trace s |}.

Definition set_targets_heap
    (f : gmap loc TargetObj -> gmap loc TargetObj) (s : State) : State :=
  {| _defaultContext := _defaultContext s; _contexts := _contexts s;
     _targets := _targets s; _events := _events s;
     contexts_heap := contexts_heap s; targets_heap := f (targets_heap s);
     pages_heap := pages_heap s; page_promises := page_promises s;
     target_promises := target_promises s; now := now s; trace := trace s |}.

Definition set_pages_heap
    (f : gmap loc PageObj -> gmap loc PageObj) (s : State) : State :=
  {| _defaultContext := _defaultContext s; _contexts := _contexts s;
     _targets := _targets s; _events := _events s;
     contexts_heap := contexts_heap s; targets_heap := targets_heap s;
     pages_heap := f (pages_heap s); page_promises := page_promises s;
     target_promises := target_promises s; now := now s; trace := trace s |}.

Definition set_page_promises
    (f : gmap nat (Promise loc) -> gmap nat (Promise loc))
    (s : State) : State :=
  {| _defaultContext := _defaultContext s; _contexts := _contexts s;
     _targets := _targets s; _events := _events s;
     contexts_heap := contexts_heap s; targets_heap := targets_heap s;
     pages_heap := pages_heap s; page_promises := f (page_promises s);
     target_promises := target_promises s; now := now s; trace := trace s |}.

Definition set_target_promises
    (f : gmap nat (Promise loc) -> gmap nat (Promise loc))
    (s : State) : State :=
  {| _defaultContext := _defaultContext s; _contexts := _contexts s;
     _targets := _targets s; _events := _events s;
     contexts_heap := contexts_heap s; targets_heap := targets_heap s;
     pages_heap := pages_heap s; page_promises := page_promises s;
     target_promises := f (target_promises s); now := now s;
     trace := trace s |}.

Definition set_now (f : Z -> Z) (s : State) : State :=
  {| _defaultContext := _defaultContext s; _contexts := _contexts s;
     _targets := _targets s; _events := _events s;
     contexts_heap := contexts_heap s; targets_heap := targets_heap s;
     pages_heap := pages_heap s; page_promises := page_promises s;
     target_promises := target_promises s; now := f (now s);
     trace := trace s |}.

Definition set_trace (f : list Op -> list Op) (s : State) : State :=
  {| _defaultContext := _defaultContext s; _contexts := _contexts s;
     _targets := _targets s; _events := _events s;
     contexts_heap := contexts_heap s; targets_heap := targets_heap s;
     pages_heap := pages_heap s; page_promises := page_promises s;
     target_promises := target_promises s; now := now s;
     trace := f (trace s) |}.

(** ** Synchronous code: state and exceptions *)

Definition M (A : Type) : Type := State -> Result A * State.

Definition ret {A} (a : A) : M A := fun s => (Ok a, s).

Definition throw {A} (e : Error) : M A := fun s => (Err e, s).

Definition bind {A B} (m : M A) (f : A -> M B) : M B :=
  fun s =>
    match m s with
    | (Ok a, s') => f a s'
    | (Err e, s') => (Err e, s')
    end.

Definition gets {A} (f : State -> A) : M A := fun s => (Ok (f s), s).

Definition modify (f : State -> State) : M unit := fun s => (Ok tt, f s).

Definition log (o : Op) : M unit := modify (set_trace (fun t => t ++ [o])).

Declare Scope js_scope.
Delimit Scope js_scope with js.
Notation "'let*' x ':=' m 'in' k" := (bind m (fun x => k))
  (at level 10, x name, m at level 100, k at level 200) : js_scope.
Notation "m ';;' k" := (bind m (fun _ => k))
  (at level 100, k at level 200, right associativity) : js_scope.

(** ** Asynchronous code: coroutines *)

(** The state of a call of an [async] method: settled, or suspended at an
    [await] with the rest of the body as a continuation.  The reply to a
    command is reduced to the identifier [Browser.ts] destructures from it
    ([browserContextId], [targetId]); the reply to [Browser.deleteContext]
    carries none and is not read.  [AwaitRace] is the suspension inside
    [helper.waitWithTimeout]: a promise raced against a timer armed with
    [timeout] milliseconds that expires at [deadline]. *)
#[warnings="-register-all"]
Inductive Async (A : Type) : Type :=
| Settled (r : Result A)
| AwaitSend (c : Command) (k : Result string -> State -> Async A * State)
| AwaitPage (p : nat) (k : Result loc -> State -> Async A * State)
| AwaitTarget (p : nat) (k : Result loc -> State -> Async A * State)
| AwaitRace (p : nat) (taskName : string) (timeout deadline : Z)
    (k : Result loc -> State -> Async A * State).
Arguments Settled {A} r.
Arguments AwaitSend {A} c k.
Arguments AwaitPage {A} p k.
Arguments AwaitTarget {A} p k.
Arguments AwaitRace {A} p taskName timeout deadline k.

Definition Co (A : Type) : Type := State -> Async A * State.

(** [return v] and [throw e] at the end of an [async] body. *)
Definition resolved {A} (a : A) : Co A := fun s => (Settled (Ok a), s).
Definition rejected {A} (e : Error) : Co A := fun s => (Settled (Err e), s).
Definition settle {A} (r : Result A) : Co A := fun s => (Settled r, s).

(** Synchronous statements followed by the rest of an [async] body: an
    exception thrown by the statements rejects the call. *)
Definition seq {A B} (m : M A) (k : A -> Co B) : Co B :=
  fun s =>
    match m s with
    | (Ok a, s') => k a s'
    | (Err e, s') => (Settled (Err e), s')
    end.

Definition returns {A} (m : M A) : Co A := seq m resolved.

Notation "'do*' x ':=' m 'in' k" := (seq m (fun x => k))
  (at level 10, x name, m at level 100, k at level 200) : js_scope.

(** [await this._connection.send(c)]. *)
Definition await_send {A} (c : Command)
    (k : Result string -> Co A) : Co A :=
  fun s => (AwaitSend c k, set_trace (fun t => t ++ [OpSend c]) s).

(** [await p] for a promise of a page, and for the promise of a wait. *)
Definition await_page {A} (p : nat) (k : Result loc -> Co A) : Co A :=
  fun s => (AwaitPage p k, s).

Definition await_target {A} (p : nat) (k : Result loc -> Co A) : Co A :=
  fun s => (AwaitTarget p k, s).

(** Modelled from the spec: [helper.waitWithTimeout(promise, taskName,
    timeout)] ([../helper] is not part of the sources at hand).  The spec
    describes a race between the event-based resolution and a timer, whose
    expiry raises a [TimeoutError] that names the operation and the bound.
    The timer is armed when the helper is called. *)
Definition waitWithTimeout {A} (promise : nat) (taskName : string)
    (timeout : Z) (k : Result loc -> Co A) : Co A :=
  fun s => (AwaitRace promise taskName timeout (now s + timeout) k, s).

(** What wakes a suspended call: the pending command settles with a reply
    or a failure; the awaited promise has settled (its value is read from
    the store); the timer of a race expires. *)
Inductive Wakeup : Type :=
| Replied (r : Result string)
| PromiseSettled
| TimerExpired.

Definition settled (p : option (Promise loc)) : option (Result loc) :=
  match p with
  | Some (Fulfilled v) => Some (Ok v)
  | Some (Rejected e) => Some (Err e)
  | _ => None
  end.

(** One turn of the event loop for a suspended call.  A timer expires no
    earlier than its deadline, and the race is lost to the timer only while
    the promise is still pending. *)
Definition resume {A} (a : Async A) (w : Wakeup) (s : State)
    : option (Async A * State) :=
  match a, w with
  | AwaitSend _ k, Replied r => Some (k r s)
  | AwaitPage p k, PromiseSettled =>
      r ← settled (page_promises s !! p); Some (k r s)
  | AwaitTarget p k, PromiseSettled =>
      r ← settled (target_promises s !! p); Some (k r s)
  | AwaitRace p _ _ _ k, PromiseSettled =>
      r ← settled (target_promises s !! p); Some (k r s)
  | AwaitRace p taskName timeout deadline k, TimerExpired =>
      match target_promises s !! p with
      | Some Pending =>
          if Z.leb deadline (now s)
          then Some (k (Err (TimeoutError taskName timeout)) s)
          else None
      | _ => None
      end
  | _, _ => None
  end.

(** ** [Target] and [Page]: the collaborators of [Browser] *)

Global Instance TargetObj_inhabited : Inhabited TargetObj :=
  populate {| _targetInfo := {| targetId := EmptyString;
                                browserContextId := None;
                                type := EmptyString |};
              _browserContext := 0%nat; _pagePromise := None;
              _closed := false |}.

Global Instance BrowserContextObj_inhabited : Inhabited BrowserContextObj :=
  populate {| _id := None |}.

Module Target.

(** Modelled from the spec: the constructor of [Target] ([Target.ts] is not
    part of the sources at hand).  A target is created with the notification's
    info and its owning context; its page promise is null until a page is
    first requested. *)
Definition new (targetInfo : TargetInfo) (browserContext : loc) : M loc :=
  fun s =>
    let target := fresh (dom (targets_heap s)) in
    (Ok target,
     set_targets_heap
       (insert target {| _targetInfo := targetInfo;
                         _browserContext := browserContext;
                         _pagePromise := None; _closed := false |}) s).

(** [target.browserContext()]. *)
Definition browserContext (target : loc) : M loc :=
  gets (fun s => _browserContext (targets_heap s !!! target)).

(** Reading and writing the field [target._pagePromise]. *)
Definition get_pagePromise (target : loc) : M (option nat) :=
  gets (fun s => _pagePromise (targets_heap s !!! target)).

Definition with_pagePromise (p : option nat) (t : TargetObj) : TargetObj :=
  {| _targetInfo := _targetInfo t; _browserContext := _browserContext t;
     _pagePromise := p; _closed := _closed t |}.

Definition set_pagePromise (target : loc) (p : option nat) : M unit :=
  modify (set_targets_heap (alter (with_pagePromise p) target)).

Definition with_closed (t : TargetObj) : TargetObj :=
  {| _targetInfo := _targetInfo t; _browserContext := _browserContext t;
     _pagePromise := _pagePromise t; _closed := true |}.

(** Modelled from the spec: [target._closedCallback()], the hook invoked when
    the remote target is torn down ([Target.ts] is not part of the sources at
    hand).  The call is recorded in the trace and on the target. *)
Definition _closedCallback (target : loc) : M unit :=
  (log (OpClosedCallback target);;
   modify (set_targets_heap (alter with_closed target)))%js.

(** Modelled from the spec: [target.page()] ([Target.ts] is not part of the
    sources at hand).  Only targets of type "page" materialize a page; the
    first request starts the materialization and caches its promise; every
    later request receives the cached promise. *)
Definition page (target : loc) : M (option nat) :=
  (let* t := gets (fun s => targets_heap s !!! target) in
   if String.eqb (type (_targetInfo t)) "page" &&
      negb (bool_decide (is_Some (_pagePromise t)))
   then
     let* p := (fun s =>
       let p := fresh (dom (page_promises s)) in
       (Ok p, set_page_promises (insert p Pending) s)) in
     set_pagePromise target (Some p);;
     ret (Some p)
   else ret (_pagePromise t))%js.

End Target.

Module Page.

(** Modelled from the spec: [page._swapTargetOnNavigation(newSession,
    newTarget)] ([Page.ts] is not part of the sources at hand): the page
    rebinds its live session to the new target's session. *)
Definition _swapTargetOnNavigation (page : loc) (newSession : string)
    (newTarget : option loc) : M unit :=
  (log (OpSwapTarget page newSession newTarget);;
   modify (set_pages_heap
     (insert page {| _session := newSession; _target := newTarget |})))%js.

End Page.

(** [connection.session(targetId)]: sessions are keyed by target id. *)
Definition session (targetId : string) : string := targetId.

(** Node's [EventEmitter], for the listeners [Browser.ts] registers on the
    [Browser] itself. *)
Module EventEmitter.

Definition listeners (event : string) (s : State) : list Listener :=
  default [] (_events s !! event).

(** [emitter.on(event, listener)] appends the listener. *)
Definition on (event : string) (l : Listener) : M unit :=
  modify (fun s => set_events (insert event (listeners event s ++ [l])) s).

Fixpoint remove_first (id : nat) (ls : list Listener) : list Listener :=
  match ls with
  | [] => []
  | l :: ls' =>
      if Nat.eqb (check_resolve l) id then ls' else l :: remove_first id ls'
  end.

(** [removeListener] drops the most recently added instance of the listener
    and forgets an event that has no listener left. *)
Definition remove_last (id : nat) (ls : list Listener) : list Listener :=
  rev (remove_first id (rev ls)).

Definition removeListener (event : string) (l : Listener) : M unit :=
  modify (fun s =>
    match remove_last (check_resolve l) (listeners event s) with
    | [] => set_events (delete event) s
    | ls => set_events (insert event ls) s
    end).

(** [resolve(target)] of the wait's promise: a promise settles once. *)
Definition resolve (p : nat) (target : loc) (s : State) : State :=
  match target_promises s !! p with
  | Some Pending => set_target_promises (insert p (Fulfilled target)) s
  | _ => s
  end.

(** The body of [check] (lines 133-136 of [waitForTarget]). *)
Definition check (l : Listener) (target : loc) (s : State) : State :=
  if check_predicate l target (targets_heap s !!! target)
  then resolve (check_resolve l) target s
  else s.

(** [emitter.emit(event, target)] calls the listeners of the event in the
    order of their registration. *)
Definition emit (event : string) (target : loc) : M unit :=
  (log (OpEmit OnBrowser event target);;
   let* ls := gets (listeners event) in
   modify (fun s => foldl (fun s l => check l target s) s ls))%js.

(** Listeners on a [BrowserContext] are the callers' own: the emission is
    recorded in the trace. *)
Definition emit_on_context (context : loc) (event : string) (target : loc)
    : M unit :=
  log (OpEmit (OnContext context) event target).

End EventEmitter.

(** Modelled from the spec: [helper.assert(value, message)] ([../helper] is
    not part of the sources at hand) fails with a precondition error when
    the value is falsy. *)
Definition assert (value : bool) (message : string) : M unit :=
  if value then ret tt else throw (AssertionError message).

(** [new BrowserContext(browser, contextId)] (lines 205-209). *)
Definition new_BrowserContext (contextId : option string) : M loc :=
  fun s =>
    let context := fresh (dom (contexts_heap s)) in
    (Ok context, set_contexts_heap (insert context {| _id := contextId |}) s).

(** The options of [waitForTarget]: [{ timeout?: number }]. *)
Record Options : Type := {
  timeout : option Z
}.

(** ** [class Browser] *)

Module Browser.

(** The constructor (lines 47-72): empty registries and a default context
    without an id. *)
Definition new : State :=
  {| _defaultContext := 0%nat; _contexts := []; _targets := [];
     _events := ∅;
     contexts_heap := {[ 0%nat := {| _id := None |} ]};
     targets_heap := ∅; pages_heap := ∅; page_promises := ∅;
     target_promises := ∅; now := 0; trace := [] |}.

Section WithEvents.

Variable Events : EventsTable.

(** Lines 79-84. *)
Definition createIncognitoBrowserContext : Co loc :=
  await_send Browser_createContext (fun r =>
    match r with
    | Err e => rejected e
    | Ok browserContextId =>
        returns
          (let* context := new_BrowserContext (Some browserContextId) in
           log (OpContextsSet browserContextId context);;
           modify (set_contexts (JsMap.set browserContextId context));;
           ret context)%js
    end).

(** Lines 86-88. *)
Definition browserContexts : M (list loc) :=
  gets (fun s => _defaultContext s :: JsMap.values (_contexts s)).

(** Lines 90-92. *)
Definition defaultBrowserContext : M loc := gets _defaultContext.

(** Lines 94-97.  Deleting a key that is not a string leaves the map as it
    is. *)
Definition _disposeContext (browserContextId : option string) : Co unit :=
  await_send (Browser_deleteContext browserContextId) (fun r =>
    match r with
    | Err e => rejected e
    | Ok _ =>
        returns
          (log (OpContextsDelete browserContextId);;
           modify (set_contexts (fun m =>
             match browserContextId with
             | Some k => JsMap.delete k m
             | None => m
             end)))%js
    end).

(** Lines 103-107.  [target.page()] on a target that the registry does not
    have dereferences [undefined]. *)
Definition _createPageInContext (browserContextId : option string)
    : Co (option loc) :=
  await_send (Browser_createPage browserContextId) (fun r =>
    match r with
    | Err e => rejected e
    | Ok targetId =>
        (do* target := gets (fun s => JsMap.get targetId (_targets s)) in
         match target with
         | None =>
             rejected (TypeError "Cannot read property 'page' of undefined")
         | Some target =>
             do* pagePromise := Target.page target in
             match pagePromise with
             | None => resolved None
             | Some p =>
                 await_page p (fun r =>
                   match r with
                   | Err e => rejected e
                   | Ok page => resolved (Some page)
                   end)
             end
         end)%js
    end).

(** Lines 99-101. *)
Definition newPage : Co (option loc) :=
  (do* id := gets (fun s => _id (contexts_heap s !!! _defaultContext s)) in
   _createPageInContext id)%js.

(** Lines 109-111. *)
Definition targets : M (list loc) :=
  gets (fun s => JsMap.values (_targets s)).

(** Lines 113-137.  The [finally] block runs on every outcome of the
    [await]. *)
Definition waitForTarget (predicate : loc -> TargetObj -> bool)
    (options : option Options) : Co loc :=
  let timeout :=
    match options with
    | Some {| timeout := Some t |} => t
    | _ => 30000
    end in
  (do* ts := targets in
   do* existingTarget := gets (fun s =>
     List.find (fun t => predicate t (targets_heap s !!! t)) ts) in
   match existingTarget with
   | Some existingTarget => resolved existingTarget
   | None =>
       do* targetPromise := (fun s =>
         let p := fresh (dom (target_promises s)) in
         (Ok p, set_target_promises (insert p Pending) s)) in
       let check := {| check_resolve := targetPromise;
                       check_predicate := predicate |} in
       do* _ := (EventEmitter.on (TargetCreated (Events_Browser Events)) check;;
                 EventEmitter.on (TargetChanged (Events_Browser Events)) check)
       in
       let finally (r : Result loc) : Co loc :=
         do* _ := (EventEmitter.removeListener
                     (TargetCreated (Events_Browser Events)) check;;
                   EventEmitter.removeListener
                     (TargetChanged (Events_Browser Events)) check) in
         settle r in
       if Z.eqb timeout 0
       then await_target targetPromise finally
       else waitWithTimeout targetPromise "target" timeout finally
   end)%js.

(** Lines 145-162.  The handler is [async] and has no [await]: it runs to
    completion when the notification is delivered. *)
Definition _onTargetCreated (targetInfo : TargetInfo) : M unit :=
  (let* context :=
     match browserContextId targetInfo with
     | Some id =>
         if truthy (Some id)
         then gets (fun s => JsMap.get id (_contexts s))
         else ret None
     | None => ret None
     end in
   let* context :=
     match context with
     | Some context => ret context
     | None => gets _defaultContext
     end in
   let* target := Target.new targetInfo context in
   log (OpTargetsSet (targetId targetInfo) target);;
   modify (set_targets (JsMap.set (targetId targetInfo) target));;
   EventEmitter.emit (TargetCreated (Events_Browser Events)) target;;
   EventEmitter.emit_on_context context
     (TargetCreated (Events_BrowserContext Events)) target)%js.

(** Lines 164-170. *)
Definition _onTargetDestroyed (targetId : string) : M unit :=
  (let* target := gets (fun s => JsMap.get targetId (_targets s)) in
   log (OpTargetsDelete targetId);;
   modify (set_targets (JsMap.delete targetId));;
   match target with
   | None =>
       throw (TypeError "Cannot read property '_closedCallback' of undefined")
   | Some target =>
       Target._closedCallback target;;
       EventEmitter.emit (TargetDestroyed (Events_Browser Events)) target;;
       let* context := Target.browserContext target in
       EventEmitter.emit_on_context context
         (TargetDestroyed (Events_BrowserContext Events)) target
   end)%js.

(** Lines 172-181.  After the [await] the handler reads the registry and the
    old target's promise again. *)
Definition _onProvisionalTargetCommitted (oldTargetId newTargetId : string)
    : Co unit :=
  (do* oldTarget := gets (fun s => JsMap.get oldTargetId (_targets s)) in
   match oldTarget with
   | None =>
       rejected (TypeError "Cannot read property '_pagePromise' of undefined")
   | Some oldTarget =>
       do* pagePromise := Target.get_pagePromise oldTarget in
       match pagePromise with
       | None => resolved tt
       | Some p =>
           await_page p (fun r =>
             match r with
             | Err e => rejected e
             | Ok page =>
                 returns
                   (let* newTarget :=
                      gets (fun s => JsMap.get newTargetId (_targets s)) in
                    let newSession := session newTargetId in
                    Page._swapTargetOnNavigation page newSession newTarget;;
                    match newTarget with
                    | None =>
                        throw (TypeError
                          "Cannot set property '_pagePromise' of undefined")
                    | Some newTarget =>
                        let* pagePromise :=
                          Target.get_pagePromise oldTarget in
                        Target.set_pagePromise newTarget pagePromise
                    end)
             end)
       end
   end)%js.

(** Lines 183-186. *)
Definition _onTargetChanged (target : loc) : M unit :=
  (EventEmitter.emit (TargetChanged (Events_BrowserContext Events)) target;;
   let* context := Target.browserContext target in
   EventEmitter.emit_on_context context
     (TargetChanged (Events_BrowserContext Events)) target)%js.

End WithEvents.
End Browser.

(** ** [class BrowserContext] *)

Module BrowserContext.
Section WithEvents.

Variable Events : EventsTable.

(** Lines 211-213. *)
Definition targets (this : loc) : M (list loc) :=
  (let* ts := Browser.targets in
   gets (fun s =>
     List.filter
       (fun target =>
          Nat.eqb (_browserContext (targets_heap s !!! target)) this) ts))%js.

(** Lines 215-217. *)
Definition waitForTarget (this : loc) (predicate : loc -> TargetObj -> bool)
    (options : option Options) : Co loc :=
  Browser.waitForTarget Events
    (fun target t => Nat.eqb (_browserContext t) this && predicate target t)
    options.

(** Lines 228-230. *)
Definition isIncognito (this : loc) : M bool :=
  gets (fun s => truthy (_id (contexts_heap s !!! this))).

(** Lines 232-234. *)
Definition newPage (this : loc) : Co (option loc) :=
  (do* id := gets (fun s => _id (contexts_heap s !!! this)) in
   Browser._createPageInContext id)%js.

(** Lines 240-243.  The [await] of the disposal is the last statement, so
    the call settles as the disposal does. *)
Definition close (this : loc) : Co unit :=
  (do* id := gets (fun s => _id (contexts_heap s !!! this)) in
   do* _ := assert (truthy id) "Non-incognito profiles cannot be closed!" in
   Browser._disposeContext id)%js.

End WithEvents.
End BrowserContext.

(** ** [pages()]: awaiting [Promise.all] *)

(** [xs.map(f)]: the calls run in order; the first exception ends the
    loop. *)
Fixpoint Array_map {A B} (f : A -> M B) (xs : list A) : M (list B) :=
  match xs with
  | [] => ret []
  | x :: xs' =>
      (let* y := f x in
       let* ys := Array_map f xs' in
       ret (y :: ys))%js
  end.

(** A call suspended at [await Promise.all(promises)], with the rest of its
    body.  An entry that is not a promise ([null]) passes through. *)
Record AwaitAll (A : Type) : Type := {
  awaited : list (option nat);
  and_then : list (option loc) -> A
}.
Arguments awaited {A} _.
Arguments and_then {A} _ _.

(** What wakes such a call: all promises are fulfilled, or the promise at
    one position has rejected. *)
Inductive AllWakeup : Type :=
| AllFulfilled
| OneRejected (i : nat).

Definition fulfilled_with (s : State) (p : option nat)
    : option (option loc) :=
  match p with
  | None => Some None
  | Some p =>
      match page_promises s !! p with
      | Some (Fulfilled page) => Some (Some page)
      | _ => None
      end
  end.

Definition resume_all {A} (a : AwaitAll A) (w : AllWakeup) (s : State)
    : option (Result A) :=
  match w with
  | AllFulfilled =>
      pages ← mapM (fulfilled_with s) (awaited a); Some (Ok (and_then a pages))
  | OneRejected i =>
      match awaited a !! i with
      | Some (Some p) =>
          match page_promises s !! p with
          | Some (Rejected e) => Some (Err e)
          | _ => None
          end
      | _ => None
      end
  end.

(** [BrowserContext.pages()] (lines 219-226) up to its [await]: the page of
    every target of the context whose type is "page" is requested, in the
    order of the registry; the rest of the body drops the null results. *)
Definition BrowserContext_pages (this : loc) : M (AwaitAll (list loc)) :=
  (let* ts := BrowserContext.targets this in
   let* pageTargets := gets (fun s =>
     List.filter
       (fun target =>
          String.eqb (type (_targetInfo (targets_heap s !!! target))) "page")
       ts) in
   let* promises := Array_map Target.page pageTargets in
   ret {| awaited := promises; and_then := omap id |})%js.

(** [Browser.pages()] (lines 139-143) up to its [await]: [pages()] of every
    context of [browserContexts()] is called in order, and each of these
    calls runs up to its own [await]. *)
Definition Browser_pages : M (list (AwaitAll (list loc))) :=
  (let* contexts := Browser.browserContexts in
   Array_map BrowserContext_pages contexts)%js.

(** The outer [Promise.all] of [Browser.pages()] is fulfilled once every
    inner call has resolved; the results are concatenated in the order of
    the contexts. *)
Definition Browser_pages_resolve (calls : list (AwaitAll (list loc)))
    (s : State) : option (list loc) :=
  contextPages ← mapM
    (fun call =>
       match resume_all call AllFulfilled s with
       | Some (Ok pages) => Some pages
       | _ => None
       end) calls;
  Some (foldl (fun acc x => acc ++ x) [] contextPages).

(** * Vocabulary of the statements *)

(** ** Traces *)

Global Instance Command_eq_dec : EqDecision Command.
Proof. solve_decision. Defined.

Global Instance Emitter_eq_dec : EqDecision Emitter.
Proof. solve_decision. Defined.

Global Instance Op_eq_dec : EqDecision Op.
Proof. solve_decision. Defined.

(** The position of the first occurrence of an operation in a trace. *)
Fixpoint position (o : Op) (t : list Op) : option nat :=
  match t with
  | [] => None
  | o' :: t' => if decide (o' = o) then Some 0%nat else S <$> position o t'
  end.

(** Both operations occur in the trace, [a] before [b]. *)
Definition before (a b : Op) (t : list Op) : bool :=
  match position a t, position b t with
  | Some i, Some j => Nat.ltb i j
  | _, _ => false
  end.

(** The operations a synchronous method adds to the trace. *)
Definition performs {A} (m : M A) (s : State) : list Op :=
  drop (length (trace s)) (trace (m s).2).

(** ** Listeners and waits *)

(** No target of the registry satisfies the predicate. *)
Definition no_existing_target (predicate : loc -> TargetObj -> bool)
    (s : State) : Prop :=
  List.find (fun t => predicate t (targets_heap s !!! t))
    (JsMap.values (_targets s)) = None.

(** The number of instances of the closure with identity [p] among the
    listeners of an event. *)
Definition count_id (p : nat) (ls : list Listener) : nat :=
  length (List.filter (fun l => Nat.eqb (check_resolve l) p) ls).

Definition attached (p : nat) (event : string) (s : State) : nat :=
  count_id p (EventEmitter.listeners event s).

(** Every registered closure belongs to a wait whose promise exists. *)
Definition listeners_known (s : State) : Prop :=
  forall event l,
    In l (EventEmitter.listeners event s) ->
    check_resolve l ∈ dom (target_promises s).

(** The subscription of [waitForTarget] and the body of its [finally]. *)
Definition subscribe (Events : EventsTable) (check : Listener) : M unit :=
  (EventEmitter.on (TargetCreated (Events_Browser Events)) check;;
   EventEmitter.on (TargetChanged (Events_Browser Events)) check)%js.

Definition unsubscribe (Events : EventsTable) (check : Listener) : M unit :=
  (EventEmitter.removeListener (TargetCreated (Events_Browser Events)) check;;
   EventEmitter.removeListener (TargetChanged (Events_Browser Events))
     check)%js.

(** The suspension of a wait with the given timeout. *)
Definition suspension (p : nat) (timeout : Z) (s : State)
    (k : Result loc -> Co loc) : Async loc :=
  if Z.eqb timeout 0
  then AwaitTarget p k
  else AwaitRace p "target" timeout (now s + timeout) k.

(** [emit] calls the closures in turn. *)
Definition notify (target : loc) (ls : list Listener) (s : State) : State :=
  foldl (fun s l => EventEmitter.check l target s) s ls.

(** ** Targets *)

(** The context [_onTargetCreated] chooses for a new target (lines
    146-157). *)
Definition owning_context (targetInfo : TargetInfo) (s : State) : loc :=
  match browserContextId targetInfo with
  | Some id =>
      if truthy (Some id)
      then default (_defaultContext s) (JsMap.get id (_contexts s))
      else _defaultContext s
  | None => _defaultContext s
  end.

(** The browser once [_onTargetCreated] has constructed and registered the
    target, before it emits the events. *)
Definition registered (targetInfo : TargetInfo) (s : State) : State :=
  let target := fresh (dom (targets_heap s)) in
  set_targets (JsMap.set (targetId targetInfo) target)
    (set_trace (fun t => t ++ [OpTargetsSet (targetId targetInfo) target])
       (set_targets_heap
          (insert target
             {| _targetInfo := targetInfo;
                _browserContext := owning_context targetInfo s;
                _pagePromise := None; _closed := false |}) s)).



(** The state in which the resumed handler leaves the objects: the page is
    rebound to the new target's session and the new target holds the promise
    [p]. *)
Definition committed (page : loc) (newTargetId : string) (newTarget : loc)
    (p : option nat) (s : State) : State :=
  set_targets_heap (alter (Target.with_pagePromise p) newTarget)
    (set_pages_heap
       (insert page {| _session := session newTargetId;
                       _target := Some newTarget |})
       (set_trace
          (fun t => t ++
             [OpSwapTarget page (session newTargetId) (Some newTarget)])
          s)).

(** The materialization that [page()] started completes: a page bound to the
    target's session fulfils the promise. *)
Definition page_materialized (p : nat) (targetId : string) (target : loc)
    (s : State) : State :=
  let page := fresh (dom (pages_heap s)) in
  set_page_promises (insert p (Fulfilled page))
    (set_pages_heap
       (insert page {| _session := session targetId;
                       _target := Some target |}) s).

(** ** Example browsers *)

(** The event names used in the examples. *)
Definition lifecycle_events : EventNames :=
  {| TargetCreated := "targetcreated";
     TargetDestroyed := "targetdestroyed";
     TargetChanged := "targetchanged" |}.

Definition example_events : EventsTable :=
  {| Events_Browser := lifecycle_events;
     Events_BrowserContext := lifecycle_events |}.

(** A browser with one target "A" of type page in the default context. *)
Definition browser_with_A : State :=
  (Browser._onTargetCreated example_events
     {| targetId := "A"; browserContextId := None; type := "page" |}
     Browser.new).2.

(** Target "A" has a materialized page; the provisional target "B" has just
    been created. *)
Definition browser_with_A_B : State :=
  (Browser._onTargetCreated example_events
     {| targetId := "B"; browserContextId := None; type := "page" |}
     (page_materialized 0%nat "A" 0%nat
        (Target.page 0%nat browser_with_A).2)).2.

(** A browser with the incognito context "ctx-1". *)
Definition browser_with_context : State :=
  match
    resume (Browser.createIncognitoBrowserContext Browser.new).1
      (Replied (Ok "ctx-1"%string))
      (Browser.createIncognitoBrowserContext Browser.new).2
  with
  | Some (_, s) => s
  | None => Browser.new
  end.


(** Three page targets "A", "C" and "B" in the default context; a page was
    requested of "A" (promise 0) and then of "C" (promise 1). *)
Definition browser_with_A_C_B : State :=
  (Target.page 1%nat
     (Target.page 0%nat
        (Browser._onTargetCreated example_events
           {| targetId := "B"; browserContextId := None; type := "page" |}
           (Browser._onTargetCreated example_events
              {| targetId := "C"; browserContextId := None; type := "page" |}
              browser_with_A).2).2).2).2.

(** The wait of the example: a target for which a page was requested. *)
Definition has_page (_ : loc) (t : TargetObj) : bool :=
  match _pagePromise t with
  | Some _ => true
  | None => false
  end.

(** ** Invariants of the registries *)

(** Every registered target is an allocated object. *)
Definition registry_allocated (s : State) : Prop :=
  forall t, In t (JsMap.values (_targets s)) -> is_Some (targets_heap s !! t).

(** The default context has no id, and a context registered under an id
    carries that id. *)
Definition contexts_consistent (s : State) : Prop :=
  contexts_heap s !! _defaultContext s = Some {| _id := None |} /\
  forall k context,
    In (k, context) (_contexts s) ->
    contexts_heap s !! context = Some {| _id := Some k |}.

(** ** Requests of pages *)

(** The targets whose page [pages()] of a context requests: the targets of
    the context whose type is "page", in the order of the registry. *)
Definition page_targets (this : loc) (s : State) : list loc :=
  List.filter
    (fun target =>
       String.eqb (type (_targetInfo (targets_heap s !!! target))) "page")
    (List.filter
       (fun target =>
          Nat.eqb (_browserContext (targets_heap s !!! target)) this)
       (JsMap.values (_targets s))).

(** What requests of pages leave as it is: the registries, the contexts,
    the info and the owner of every target, and every page promise a target
    holds already. *)
Definition page_requests_only (s s' : State) : Prop :=
  _defaultContext s' = _defaultContext s /\
  _targets s' = _targets s /\
  _contexts s' = _contexts s /\
  contexts_heap s' = contexts_heap s /\
  (forall t,
     _targetInfo (targets_heap s' !!! t) = _targetInfo (targets_heap s !!! t)) /\
  (forall t,
     _browserContext (targets_heap s' !!! t)
       = _browserContext (targets_heap s !!! t)) /\
  (forall t q,
     _pagePromise (targets_heap s !!! t) = Some q ->
     _pagePromise (targets_heap s' !!! t) = Some q).

(** * Properties *)

(** ** The insertion-ordered map *)

Lemma JsMap_get_set_eq {V} (k : string) (v : V) (m : JsMap.t V) :
  JsMap.get k (JsMap.set k v m) = Some v.
Proof.
  unfold JsMap.get.
  induction m as [|[k' v'] m IH]; simpl.
  - by rewrite String.eqb_refl.
  - destruct (String.eqb k' k) eqn:E; simpl.
    + by rewrite String.eqb_refl.
    + by rewrite E.
Qed.

Lemma JsMap_get_set_ne {V} (k k' : string) (v : V) (m : JsMap.t V) :
  k ≠ k' -> JsMap.get k' (JsMap.set k v m) = JsMap.get k' m.
Proof.
  intros Hne. unfold JsMap.get.
  assert (String.eqb k k' = false) as Hkk' by by apply String.eqb_neq.
  induction m as [|[k0 v0] m IH]; simpl.
  - by rewrite Hkk'.
  - destruct (String.eqb k0 k) eqn:E; simpl.
    + apply String.eqb_eq in E. subst k0. by rewrite Hkk'.
    + destruct (String.eqb k0 k'); [done | apply IH].
Qed.

Lemma JsMap_get_delete_eq {V} (k : string) (m : JsMap.t V) :
  JsMap.get k (JsMap.delete k m) = None.
Proof.
  unfold JsMap.get, JsMap.delete.
  induction m as [|[k' v'] m IH]; simpl; [done |].
  destruct (String.eqb k' k) eqn:E; simpl; [done |].
  by rewrite E.
Qed.

Lemma JsMap_get_delete_ne {V} (k k' : string) (m : JsMap.t V) :
  k ≠ k' -> JsMap.get k' (JsMap.delete k m) = JsMap.get k' m.
Proof.
  intros Hne. unfold JsMap.get, JsMap.delete.
  induction m as [|[k0 v0] m IH]; simpl; [done |].
  destruct (String.eqb k0 k) eqn:E; simpl.
  - apply String.eqb_eq in E. subst k0.
    assert (String.eqb k k' = false) as -> by by apply String.eqb_neq.
    apply IH.
  - destruct (String.eqb k0 k'); [done | apply IH].
Qed.

(** Two states with the same fields are equal. *)
Lemma State_eq (s1 s2 : State) :
  _defaultContext s1 = _defaultContext s2 ->
  _contexts s1 = _contexts s2 ->
  _targets s1 = _targets s2 ->
  _events s1 = _events s2 ->
  contexts_heap s1 = contexts_heap s2 ->
  targets_heap s1 = targets_heap s2 ->
  pages_heap s1 = pages_heap s2 ->
  page_promises s1 = page_promises s2 ->
  target_promises s1 = target_promises s2 ->
  now s1 = now s2 ->
  trace s1 = trace s2 ->
  s1 = s2.
Proof. destruct s1, s2. simpl. by intros -> -> -> -> -> -> -> -> -> -> ->. Qed.

(** Unfolding the monadic plumbing of a method body. *)
Ltac run :=
  unfold returns, await_send, await_page, await_target, waitWithTimeout,
    log;
  unfold seq, resolved, rejected, settle, bind, ret, throw, gets, modify;
  simpl.

(** ** Creating a context (C7) *)

(** C7.  [createIncognitoBrowserContext] is atomic with respect to the
    contexts map.  Issuing the command leaves the map as it is.  When the
    command fails, the call rejects with that very error and the state at
    that moment is left untouched.  When the command replies with an id, the
    call resolves to a new [BrowserContext] that carries the id and is
    registered under it, and no other key of the map changes. *)
Theorem createIncognitoBrowserContext_atomic (s : State) :
  let call := Browser.createIncognitoBrowserContext s in
  _contexts call.2 = _contexts s /\
  trace call.2 = trace s ++ [OpSend Browser_createContext] /\
  (forall e s',
     resume call.1 (Replied (Err e)) s' = Some (Settled (Err e), s')) /\
  (forall browserContextId s',
     exists context s'',
       resume call.1 (Replied (Ok browserContextId)) s'
         = Some (Settled (Ok context), s'') /\
       contexts_heap s' !! context = None /\
       contexts_heap s'' !! context
         = Some {| _id := Some browserContextId |} /\
       JsMap.get browserContextId (_contexts s'') = Some context /\
       (forall k, k ≠ browserContextId ->
          JsMap.get k (_contexts s'') = JsMap.get k (_contexts s'))).
Proof.
  unfold Browser.createIncognitoBrowserContext. run.
  repeat split.
  intros id s'. eexists _, _. split; [reflexivity |]. simpl.
  split; [| split; [| split]].
  - apply not_elem_of_dom, is_fresh.
  - apply lookup_insert_eq.
  - apply JsMap_get_set_eq.
  - intros k Hk. by apply JsMap_get_set_ne.
Qed.

(** ** Closing a context (C9) *)

(** C9.  [BrowserContext.close()] on a context whose id is absent or empty
    (the default context) rejects with the precondition error of its
    assertion and leaves the whole state as it is: no command is recorded in
    the trace and no registry changes.  On a context with a non-empty id it
    is the [Browser]'s [_disposeContext] of that id. *)
Theorem BrowserContext_close_spec (this : loc) (s : State) :
  let id := _id (contexts_heap s !!! this) in
  ((id = None \/ id = Some EmptyString) ->
   BrowserContext.close this s
     = (Settled
          (Err (AssertionError "Non-incognito profiles cannot be closed!")),
        s)) /\
  (forall i, id = Some i -> i ≠ EmptyString ->
   BrowserContext.close this s = Browser._disposeContext (Some i) s).
Proof.
  unfold BrowserContext.close. run. split.
  - by intros [-> | ->].
  - intros i -> Hi. simpl.
    by apply String.eqb_neq in Hi as ->.
Qed.

Lemma BrowserContext_close_spec_witness :
  BrowserContext.close (_defaultContext Browser.new) Browser.new
    = (Settled
         (Err (AssertionError "Non-incognito profiles cannot be closed!")),
       Browser.new).
Proof.
  apply (BrowserContext_close_spec (_defaultContext Browser.new) Browser.new).
  left. reflexivity.
Defined.

(** ** Creating a page (C3) *)

(** C3.  [newPage] of the [Browser] and of a [BrowserContext] are
    [_createPageInContext] of the context's id.  When the create-page
    command replies with a target id that the registry does not have at that
    moment, the call rejects with the runtime's [TypeError] for the
    undefined target -- not with a result, a protocol error, a precondition
    error or a timeout -- and changes nothing. *)
Theorem createPageInContext_unknown_target
    (browserContextId : option string) (s : State) :
  let call := Browser._createPageInContext browserContextId s in
  Browser.newPage s
    = Browser._createPageInContext
        (_id (contexts_heap s !!! _defaultContext s)) s /\
  (forall this,
     BrowserContext.newPage this s
       = Browser._createPageInContext (_id (contexts_heap s !!! this)) s) /\
  (exists k, call.1 = AwaitSend (Browser_createPage browserContextId) k) /\
  (forall targetId s',
     JsMap.get targetId (_targets s') = None ->
     exists message,
       resume call.1 (Replied (Ok targetId)) s'
         = Some (Settled (Err (TypeError message)), s')).
Proof.
  unfold Browser.newPage, BrowserContext.newPage, Browser._createPageInContext.
  run. repeat split; [by eexists |].
  intros targetId s' ->. by eexists.
Qed.

Lemma createPageInContext_unknown_target_witness :
  exists message,
    resume (Browser._createPageInContext None Browser.new).1
      (Replied (Ok "T1"%string)) Browser.new
    = Some (Settled (Err (TypeError message)), Browser.new).
Proof.
  apply (createPageInContext_unknown_target None Browser.new).
  reflexivity.
Defined.

(** ** Notifications *)

(** Emitting an event on the [Browser] runs [check] closures, which settle
    promises of waits and touch nothing else. *)
Lemma check_listeners_frame (target : loc) (ls : list Listener) (s : State) :
  exists tp,
    foldl (fun s l => EventEmitter.check l target s) s ls
      = set_target_promises (fun _ => tp) s.
Proof.
  revert s. induction ls as [|l ls IH]; intros s; simpl.
  - exists (target_promises s). by destruct s.
  - destruct (IH (EventEmitter.check l target s)) as [tp ->].
    exists tp. unfold EventEmitter.check, EventEmitter.resolve.
    destruct (check_predicate l target _); [| done].
    destruct (target_promises s !! check_resolve l) as [[| |]|]; done.
Qed.

(** C8.  [_onTargetCreated] never fails.  It registers, under the
    notification's target id, a new target whose owning context is the entry
    of the contexts map for the notification's context id when the id is
    present (not empty, as everywhere for context ids) and known, and the
    default context in every other case: the id is absent or empty, or the
    map has no entry for it. *)
Theorem onTargetCreated_owner (Events : EventsTable)
    (targetInfo : TargetInfo) (s : State) :
  exists target s',
    Browser._onTargetCreated Events targetInfo s = (Ok tt, s') /\
    targets_heap s !! target = None /\
    JsMap.get (targetId targetInfo) (_targets s') = Some target /\
    (exists owner,
       targets_heap s' !! target
         = Some {| _targetInfo := targetInfo; _browserContext := owner;
                   _pagePromise := None; _closed := false |} /\
       (forall id context,
          browserContextId targetInfo = Some id -> id ≠ EmptyString ->
          JsMap.get id (_contexts s) = Some context ->
          owner = context) /\
       (browserContextId targetInfo = None \/
        browserContextId targetInfo = Some EmptyString \/
        (exists id, browserContextId targetInfo = Some id /\
                    JsMap.get id (_contexts s) = None) ->
        owner = _defaultContext s)).
Proof.
  unfold Browser._onTargetCreated, Target.new, EventEmitter.emit,
    EventEmitter.emit_on_context.
  set (target := fresh (dom (targets_heap s))).
  assert (exists c,
    (match browserContextId targetInfo with
     | Some id =>
         if truthy (Some id)
         then gets (fun s => JsMap.get id (_contexts s))
         else ret None
     | None => ret None
     end) s = (Ok c, s) /\
    (forall id context,
       browserContextId targetInfo = Some id -> id ≠ EmptyString ->
       JsMap.get id (_contexts s) = Some context -> c = Some context) /\
    (browserContextId targetInfo = None \/
     browserContextId targetInfo = Some EmptyString \/
     (exists id, browserContextId targetInfo = Some id /\
                 JsMap.get id (_contexts s) = None) -> c = None))
    as (c & Hc & Hknown & Hdefault).
  { destruct (browserContextId targetInfo) as [id|]; simpl.
    - destruct (String.eqb id EmptyString) eqn:E; simpl.
      + apply String.eqb_eq in E. subst id. eexists. split; [reflexivity |].
        split; [by intros ? ? [= <-] |]. done.
      + eexists. split; [reflexivity |]. split.
        * by intros ? ? [= <-] _ ->.
        * intros [? | [[= ->] | (? & [= <-] & ->)]]; done.
    - eexists. split; [reflexivity |]. split; [done | done]. }
  unfold bind at 1. rewrite Hc.
  exists target.
  destruct c as [context|]; run; fold target;
    (match goal with
     | |- context [foldl ?f ?s0 ?ls] =>
         destruct (check_listeners_frame target ls s0) as [tp Hfold];
         rewrite Hfold
     end);
    (eexists; split; [reflexivity |]; simpl;
     split; [apply not_elem_of_dom, is_fresh |];
     split; [apply JsMap_get_set_eq |];
     eexists; split; [apply lookup_insert_eq |]).
  - split.
    + intros id c' Hid Hne Hget.
      specialize (Hknown _ _ Hid Hne Hget). congruence.
    + intros H. specialize (Hdefault H). congruence.
  - split.
    + intros id c' Hid Hne Hget.
      specialize (Hknown _ _ Hid Hne Hget). congruence.
    + done.
Qed.

(** *** Destroying a target (C2) *)

(** The state in which [_onTargetDestroyed] leaves a browser that has the
    target: the registry entry is gone, the target is marked closed, the
    four operations are recorded, and the listeners of the event may have
    settled promises of waits. *)
Lemma onTargetDestroyed_run (Events : EventsTable)
    (targetId : string) (target : loc) (s : State) :
  JsMap.get targetId (_targets s) = Some target ->
  is_Some (targets_heap s !! target) ->
  exists tp,
    Browser._onTargetDestroyed Events targetId s =
      (Ok tt,
       set_trace (fun tr => tr ++
         [OpTargetsDelete targetId;
          OpClosedCallback target;
          OpEmit OnBrowser (TargetDestroyed (Events_Browser Events)) target;
          OpEmit (OnContext (_browserContext (targets_heap s !!! target)))
            (TargetDestroyed (Events_BrowserContext Events)) target])
         (set_target_promises (fun _ => tp)
            (set_targets_heap (alter Target.with_closed target)
               (set_targets (JsMap.delete targetId) s)))).
Proof.
  intros Hget [t Ht].
  unfold Browser._onTargetDestroyed, Target._closedCallback,
    Target.browserContext, EventEmitter.emit, EventEmitter.emit_on_context.
  run. rewrite Hget. simpl.
  match goal with
  | |- context [foldl ?f ?s0 ?ls] =>
      destruct (check_listeners_frame target ls s0) as [tp Hfold];
      rewrite Hfold
  end.
  exists tp. simpl.
  assert (_browserContext
            (alter Target.with_closed target (targets_heap s) !!! target)
          = _browserContext (targets_heap s !!! target)) as ->.
  { rewrite !lookup_total_alt, lookup_alter_eq, Ht. reflexivity. }
  f_equal. apply State_eq; simpl; try reflexivity.
  by rewrite <- !app_assoc.
Qed.





(** *** Committing a provisional target (C1, C10) *)

(** The handler up to its [await], and the rest of its body. *)
Lemma onProvisionalTargetCommitted_body
    (oldTargetId newTargetId : string) (oldTarget : loc) (p : nat)
    (s : State) :
  JsMap.get oldTargetId (_targets s) = Some oldTarget ->
  _pagePromise (targets_heap s !!! oldTarget) = Some p ->
  exists k,
    Browser._onProvisionalTargetCommitted oldTargetId newTargetId s
      = (AwaitPage p k, s) /\
    (forall e s', k (Err e) s' = (Settled (Err e), s')) /\
    (forall page newTarget s',
       JsMap.get newTargetId (_targets s') = Some newTarget ->
       k (Ok page) s'
         = (Settled (Ok tt),
            committed page newTargetId newTarget
              (_pagePromise (targets_heap s' !!! oldTarget)) s')).
Proof.
  intros Hold Hp.
  unfold Browser._onProvisionalTargetCommitted, Target.get_pagePromise,
    Target.set_pagePromise, Page._swapTargetOnNavigation.
  run. rewrite Hold. simpl. rewrite Hp.
  eexists. split; [reflexivity |]. split; [done |].
  intros page newTarget s' Hnew. rewrite Hnew. reflexivity.
Qed.

(** What the committed state holds. *)
Lemma committed_new_target (page : loc) (newTargetId : string)
    (newTarget : loc) (p : option nat) (s : State) :
  is_Some (targets_heap s !! newTarget) ->
  _pagePromise (targets_heap (committed page newTargetId newTarget p s)
                  !!! newTarget) = p.
Proof.
  intros [t Ht]. simpl.
  by rewrite lookup_total_alt, lookup_alter_eq, Ht.
Qed.

Lemma committed_other_target (page : loc) (newTargetId : string)
    (newTarget target : loc) (p : option nat) (s : State) :
  _pagePromise (targets_heap s !!! target) = p ->
  _pagePromise (targets_heap (committed page newTargetId newTarget p s)
                  !!! target) = p.
Proof.
  intros Hp. simpl.
  destruct (decide (newTarget = target)) as [-> | Hne].
  - rewrite lookup_total_alt, lookup_alter_eq.
    rewrite lookup_total_alt in Hp.
    by destruct (targets_heap s !! target).
  - by rewrite lookup_total_alter_ne.
Qed.

(** A target that holds a page promise answers [page()] with it and starts
    no materialization. *)
Lemma Target_page_cached (target : loc) (p : nat) (s : State) :
  _pagePromise (targets_heap s !!! target) = Some p ->
  Target.page target s = (Ok (Some p), s).
Proof.
  intros Hp. unfold Target.page. run. rewrite Hp.
  rewrite bool_decide_true by eauto.
  by rewrite andb_false_r.
Qed.

(** C1.  Let the old target be registered when the commit notification is
    handled.  If it has no page promise, the handler completes at once and
    the state is unchanged.  If it holds the promise [p] (pending or
    settled), the handler changes nothing and waits for [p]; it stays
    suspended while [p] is pending; and once [p] is fulfilled with a page,
    with the new target registered, the handler completes and has written
    onto the new target the promise the old target holds at that moment
    (line 180 reads the field again after the [await]): the new target
    holds the very promise of the old target, the promises themselves are
    untouched, and [page()] on the target registered under the new id
    answers what [page()] on the old target answers, starting no new
    materialization.  Whenever the old target still holds [p], this is [p],
    which is fulfilled with that same page. *)
Theorem onProvisionalTargetCommitted_transplants
    (oldTargetId newTargetId : string) (oldTarget : loc) (s : State) :
  JsMap.get oldTargetId (_targets s) = Some oldTarget ->
  let call :=
    Browser._onProvisionalTargetCommitted oldTargetId newTargetId s in
  (_pagePromise (targets_heap s !!! oldTarget) = None ->
   call = (Settled (Ok tt), s)) /\
  (forall p,
     _pagePromise (targets_heap s !!! oldTarget) = Some p ->
     call.2 = s /\
     (exists k, call.1 = AwaitPage p k) /\
     (forall s',
        page_promises s' !! p = Some Pending ->
        resume call.1 PromiseSettled s' = None) /\
     (forall s' page newTarget,
        page_promises s' !! p = Some (Fulfilled page) ->
        JsMap.get newTargetId (_targets s') = Some newTarget ->
        is_Some (targets_heap s' !! newTarget) ->
        exists s'',
          resume call.1 PromiseSettled s' = Some (Settled (Ok tt), s'') /\
          JsMap.get newTargetId (_targets s'') = Some newTarget /\
          _pagePromise (targets_heap s'' !!! newTarget)
            = _pagePromise (targets_heap s' !!! oldTarget) /\
          page_promises s'' = page_promises s' /\
          (forall q,
             _pagePromise (targets_heap s' !!! oldTarget) = Some q ->
             Target.page oldTarget s' = (Ok (Some q), s') /\
             Target.page newTarget s'' = (Ok (Some q), s'')) /\
          (_pagePromise (targets_heap s' !!! oldTarget) = Some p ->
           _pagePromise (targets_heap s'' !!! newTarget) = Some p /\
           page_promises s'' !! p = Some (Fulfilled page) /\
           Target.page newTarget s'' = (Ok (Some p), s'')))).
Proof.
  intros Hold call. split.
  - intros Hnone. subst call.
    unfold Browser._onProvisionalTargetCommitted, Target.get_pagePromise.
    run. rewrite Hold. simpl. by rewrite Hnone.
  - intros p Hp.
    destruct (onProvisionalTargetCommitted_body oldTargetId newTargetId
                oldTarget p s Hold Hp) as (k & Hcall & _ & Hk).
    subst call. rewrite Hcall. simpl.
    split; [done |]. split; [by eexists |]. split.
    + by intros s' ->.
    + intros s' page newTarget Hpage Hnew Halloc.
      rewrite Hpage. simpl. rewrite (Hk _ _ _ Hnew).
      eexists. split; [reflexivity |].
      split; [done |].
      split; [by apply committed_new_target |].
      split; [done |].
      split.
      * intros q Hq. split; apply Target_page_cached; [done |].
        rewrite <- Hq. by apply committed_new_target.
      * intros Hp'.
        assert (_pagePromise
                  (targets_heap
                     (committed page newTargetId newTarget
                        (_pagePromise (targets_heap s' !!! oldTarget)) s')
                   !!! newTarget) = Some p) as Hnewp.
        { rewrite <- Hp'. by apply committed_new_target. }
        split; [exact Hnewp |]. split; [done |].
        by apply Target_page_cached.
Qed.

Lemma onProvisionalTargetCommitted_transplants_witness :
  exists s'',
    resume (Browser._onProvisionalTargetCommitted "A" "B" browser_with_A_B).1
      PromiseSettled browser_with_A_B
    = Some (Settled (Ok tt), s'') /\
    JsMap.get "B" (_targets s'') = Some 1%nat /\
    _pagePromise (targets_heap s'' !!! 1%nat) = Some 0%nat /\
    page_promises s'' !! 0%nat = Some (Fulfilled 0%nat) /\
    Target.page 1%nat s'' = (Ok (Some 0%nat), s'').
Proof.
  assert (JsMap.get "A" (_targets browser_with_A_B) = Some 0%nat) as Hold
    by (vm_compute; reflexivity).
  destruct (onProvisionalTargetCommitted_transplants "A" "B" 0%nat
              browser_with_A_B Hold) as [_ Hsome].
  destruct (Hsome 0%nat) as (_ & _ & _ & Hresume).
  { vm_compute. reflexivity. }
  destruct (Hresume browser_with_A_B 0%nat 1%nat)
    as (s'' & Hout & Hnew & _ & _ & _ & Hsame).
  { vm_compute. reflexivity. }
  { vm_compute. reflexivity. }
  { vm_compute. eauto. }
  destruct Hsame as (Hp & Hpage & Hanswer).
  { vm_compute. reflexivity. }
  exists s''. by repeat split.
Defined.

(** The promise written is the one the old target holds when the handler
    resumes.  Targets "A", "C" and "B" are registered; "A" holds promise 0
    and "C" promise 1.  The commits of "C" to "A" and of "A" to "B" are both
    handled before either page is there.  When both pages have arrived and
    the first handler has resumed, "A" holds promise 1; the second handler,
    which awaited promise 0, then writes promise 1 onto "B": "B" holds what
    "A" holds. *)
Example onProvisionalTargetCommitted_interleaved_example :
  let s := browser_with_A_C_B in
  let ready :=
    page_materialized 1%nat "C" 1%nat
      (page_materialized 0%nat "A" 0%nat s) in
  let s4 := committed 1%nat "A" 0%nat (Some 1%nat) ready in
  let s5 := committed 0%nat "B" 2%nat (Some 1%nat) s4 in
  JsMap.get "A" (_targets s) = Some 0%nat /\
  JsMap.get "C" (_targets s) = Some 1%nat /\
  JsMap.get "B" (_targets s) = Some 2%nat /\
  _pagePromise (targets_heap s !!! 0%nat) = Some 0%nat /\
  _pagePromise (targets_heap s !!! 1%nat) = Some 1%nat /\
  (exists k,
     Browser._onProvisionalTargetCommitted "A" "B" s
       = (AwaitPage 0%nat k, s)) /\
  (exists k,
     Browser._onProvisionalTargetCommitted "C" "A" s
       = (AwaitPage 1%nat k, s)) /\
  resume (Browser._onProvisionalTargetCommitted "C" "A" s).1
    PromiseSettled ready = Some (Settled (Ok tt), s4) /\
  _pagePromise (targets_heap s4 !!! 0%nat) = Some 1%nat /\
  resume (Browser._onProvisionalTargetCommitted "A" "B" s).1
    PromiseSettled s4 = Some (Settled (Ok tt), s5) /\
  _pagePromise (targets_heap s5 !!! 2%nat) = Some 1%nat /\
  _pagePromise (targets_heap s5 !!! 0%nat) = Some 1%nat.
Proof.
  intros s ready s4 s5.
  assert (JsMap.get "A" (_targets s) = Some 0%nat) as HA
    by (vm_compute; reflexivity).
  assert (JsMap.get "C" (_targets s) = Some 1%nat) as HC
    by (vm_compute; reflexivity).
  assert (_pagePromise (targets_heap s !!! 0%nat) = Some 0%nat) as HpA
    by (vm_compute; reflexivity).
  assert (_pagePromise (targets_heap s !!! 1%nat) = Some 1%nat) as HpC
    by (vm_compute; reflexivity).
  split; [exact HA |]. split; [exact HC |].
  split; [vm_compute; reflexivity |].
  split; [exact HpA |]. split; [exact HpC |].
  split.
  { destruct (onProvisionalTargetCommitted_body "A" "B" 0%nat 0%nat s HA HpA)
      as (k & Hcall & _). by exists k. }
  split.
  { destruct (onProvisionalTargetCommitted_body "C" "A" 1%nat 1%nat s HC HpC)
      as (k & Hcall & _). by exists k. }
  split; [vm_compute; reflexivity |].
  split; [vm_compute; reflexivity |].
  split; [vm_compute; reflexivity |].
  split; vm_compute; reflexivity.
Qed.

(** C10.  The commit does not clear the old target's promise.  When the
    handler resumes with the old target's promise [p] fulfilled and both
    targets registered, then afterwards both ids are still registered to the
    same two targets, both targets hold [p], and [page()] on either answers
    [p], which is fulfilled with the one page: two entries of the registry
    refer to one page. *)
Theorem onProvisionalTargetCommitted_shares_page
    (oldTargetId newTargetId : string) (oldTarget newTarget : loc)
    (p : nat) (page : loc) (s s' : State) :
  JsMap.get oldTargetId (_targets s) = Some oldTarget ->
  _pagePromise (targets_heap s !!! oldTarget) = Some p ->
  page_promises s' !! p = Some (Fulfilled page) ->
  JsMap.get oldTargetId (_targets s') = Some oldTarget ->
  _pagePromise (targets_heap s' !!! oldTarget) = Some p ->
  JsMap.get newTargetId (_targets s') = Some newTarget ->
  is_Some (targets_heap s' !! newTarget) ->
  let call :=
    Browser._onProvisionalTargetCommitted oldTargetId newTargetId s in
  exists s'',
    resume call.1 PromiseSettled s' = Some (Settled (Ok tt), s'') /\
    JsMap.get oldTargetId (_targets s'') = Some oldTarget /\
    JsMap.get newTargetId (_targets s'') = Some newTarget /\
    _pagePromise (targets_heap s'' !!! oldTarget) = Some p /\
    _pagePromise (targets_heap s'' !!! newTarget) = Some p /\
    page_promises s'' !! p = Some (Fulfilled page) /\
    Target.page oldTarget s'' = (Ok (Some p), s'') /\
    Target.page newTarget s'' = (Ok (Some p), s'').
Proof.
  intros Hold Hp Hpage Hold' Hp' Hnew Halloc call.
  destruct (onProvisionalTargetCommitted_body oldTargetId newTargetId
              oldTarget p s Hold Hp) as (k & Hcall & _ & Hk).
  subst call. rewrite Hcall. simpl.
  rewrite Hpage. simpl. rewrite (Hk _ _ _ Hnew), Hp'.
  eexists. split; [reflexivity |].
  split; [done |]. split; [done |].
  split; [by apply committed_other_target |].
  split; [by apply committed_new_target |].
  split; [done |].
  split; apply Target_page_cached.
  - by apply committed_other_target.
  - by apply committed_new_target.
Qed.

Lemma onProvisionalTargetCommitted_shares_page_witness :
  (0 ≠ 1)%nat /\
  exists s'',
    resume (Browser._onProvisionalTargetCommitted "A" "B" browser_with_A_B).1
      PromiseSettled browser_with_A_B
    = Some (Settled (Ok tt), s'') /\
    JsMap.get "A" (_targets s'') = Some 0%nat /\
    JsMap.get "B" (_targets s'') = Some 1%nat /\
    _pagePromise (targets_heap s'' !!! 0%nat) = Some 0%nat /\
    _pagePromise (targets_heap s'' !!! 1%nat) = Some 0%nat /\
    page_promises s'' !! 0%nat = Some (Fulfilled 0%nat) /\
    Target.page 0%nat s'' = (Ok (Some 0%nat), s'') /\
    Target.page 1%nat s'' = (Ok (Some 0%nat), s'').
Proof.
  split; [discriminate |].
  apply (onProvisionalTargetCommitted_shares_page "A" "B" 0%nat 1%nat
           0%nat 0%nat browser_with_A_B browser_with_A_B).
  - vm_compute. reflexivity.
  - vm_compute. reflexivity.
  - vm_compute. reflexivity.
  - vm_compute. reflexivity.
  - vm_compute. reflexivity.
  - vm_compute. reflexivity.
  - vm_compute. eauto.
Defined.

(** ** Waiting for a target (C4, C5, C6) *)

(** [waitForTarget] when no target matches yet: it creates the promise [p],
    subscribes [check] and suspends; whatever the outcome [r] of the
    [await], the rest of the body unsubscribes and settles with [r]. *)
Lemma waitForTarget_body (Events : EventsTable)
    (predicate : loc -> TargetObj -> bool) (options : option Options)
    (s : State) :
  no_existing_target predicate s ->
  let p := fresh (dom (target_promises s)) in
  let check := {| check_resolve := p; check_predicate := predicate |} in
  let timeout :=
    match options with
    | Some {| timeout := Some t |} => t
    | _ => 30000
    end in
  exists k,
    Browser.waitForTarget Events predicate options s
      = (suspension p timeout s k,
         (subscribe Events check
            (set_target_promises (insert p Pending) s)).2) /\
    forall r s', k r s' = (Settled r, (unsubscribe Events check s').2).
Proof.
  intros Hnone p check timeout.
  unfold Browser.waitForTarget, Browser.targets, subscribe, unsubscribe,
    suspension, EventEmitter.on, EventEmitter.removeListener.
  unfold no_existing_target in Hnone.
  run. rewrite Hnone. fold p. fold timeout.
  destruct (Z.eqb timeout 0); eexists; (split; [reflexivity |]); done.
Qed.

(** [waitForTarget] when a target matches already. *)
Lemma waitForTarget_existing (Events : EventsTable)
    (predicate : loc -> TargetObj -> bool) (options : option Options)
    (existingTarget : loc) (s : State) :
  List.find (fun t => predicate t (targets_heap s !!! t))
    (JsMap.values (_targets s)) = Some existingTarget ->
  Browser.waitForTarget Events predicate options s
    = (Settled (Ok existingTarget), s).
Proof.
  intros Hsome. unfold Browser.waitForTarget, Browser.targets. run.
  by rewrite Hsome.
Qed.

(** *** Counting the instances of a closure *)

Lemma count_id_app (p : nat) (ls ls' : list Listener) :
  count_id p (ls ++ ls') = (count_id p ls + count_id p ls')%nat.
Proof. unfold count_id. by rewrite List.filter_app, length_app. Qed.

Lemma count_id_rev (p : nat) (ls : list Listener) :
  count_id p (rev ls) = count_id p ls.
Proof.
  induction ls as [|l ls IH]; [done |].
  simpl. rewrite count_id_app, IH. unfold count_id. simpl.
  destruct (Nat.eqb (check_resolve l) p); simpl; lia.
Qed.

Lemma count_id_remove_first (p : nat) (ls : list Listener) :
  count_id p (EventEmitter.remove_first p ls) = Nat.pred (count_id p ls).
Proof.
  unfold count_id.
  induction ls as [|l ls IH]; [done |].
  simpl. destruct (Nat.eqb (check_resolve l) p) eqn:E; simpl; [done |].
  by rewrite E.
Qed.

Lemma count_id_remove_last (p : nat) (ls : list Listener) :
  count_id p (EventEmitter.remove_last p ls) = Nat.pred (count_id p ls).
Proof.
  unfold EventEmitter.remove_last.
  by rewrite count_id_rev, count_id_remove_first, count_id_rev.
Qed.

Lemma listeners_on (event event' : string) (l : Listener) (s : State) :
  EventEmitter.listeners event (EventEmitter.on event' l s).2
    = if decide (event' = event)
      then EventEmitter.listeners event s ++ [l]
      else EventEmitter.listeners event s.
Proof.
  unfold EventEmitter.on, EventEmitter.listeners. run.
  case_decide as Hev.
  - subst. by rewrite lookup_insert_eq.
  - by rewrite lookup_insert_ne.
Qed.

Lemma listeners_removeListener (event event' : string) (l : Listener)
    (s : State) :
  EventEmitter.listeners event (EventEmitter.removeListener event' l s).2
    = if decide (event' = event)
      then EventEmitter.remove_last (check_resolve l)
             (EventEmitter.listeners event s)
      else EventEmitter.listeners event s.
Proof.
  unfold EventEmitter.removeListener. run.
  fold (EventEmitter.listeners event' s).
  destruct (EventEmitter.remove_last _ (EventEmitter.listeners event' s))
    as [|l' ls'] eqn:E; unfold EventEmitter.listeners at 1; simpl;
    case_decide as Hev.
  - subst. by rewrite lookup_delete_eq, E.
  - by rewrite lookup_delete_ne.
  - subst. by rewrite lookup_insert_eq, E.
  - by rewrite lookup_insert_ne.
Qed.

Lemma attached_subscribe (Events : EventsTable) (check : Listener)
    (event : string) (s : State) :
  attached (check_resolve check) event (subscribe Events check s).2
    = (attached (check_resolve check) event s
       + (if decide (TargetCreated (Events_Browser Events) = event)
          then 1 else 0)
       + (if decide (TargetChanged (Events_Browser Events) = event)
          then 1 else 0))%nat.
Proof.
  unfold subscribe, attached.
  assert (count_id (check_resolve check) [check] = 1%nat) as Hone.
  { unfold count_id. simpl. by rewrite Nat.eqb_refl. }
  change ((bind (EventEmitter.on (TargetCreated (Events_Browser Events)) check)
             (fun _ => EventEmitter.on
                         (TargetChanged (Events_Browser Events)) check) s).2)
    with ((EventEmitter.on (TargetChanged (Events_Browser Events)) check
             (EventEmitter.on (TargetCreated (Events_Browser Events)) check
                s).2).2).
  rewrite listeners_on.
  case_decide; rewrite ?count_id_app, listeners_on;
    case_decide; rewrite ?count_id_app, ?Hone; lia.
Qed.

Lemma attached_unsubscribe (Events : EventsTable) (check : Listener)
    (event : string) (s : State) :
  attached (check_resolve check) event (unsubscribe Events check s).2
    = Nat.iter (if decide (TargetChanged (Events_Browser Events) = event)
                then 1 else 0)
        Nat.pred
        (Nat.iter (if decide (TargetCreated (Events_Browser Events) = event)
                   then 1 else 0)
           Nat.pred
           (attached (check_resolve check) event s)).
Proof.
  unfold unsubscribe, attached.
  change ((bind (EventEmitter.removeListener
                   (TargetCreated (Events_Browser Events)) check)
             (fun _ => EventEmitter.removeListener
                         (TargetChanged (Events_Browser Events)) check) s).2)
    with ((EventEmitter.removeListener
             (TargetChanged (Events_Browser Events)) check
             (EventEmitter.removeListener
                (TargetCreated (Events_Browser Events)) check s).2).2).
  rewrite listeners_removeListener.
  case_decide; rewrite ?count_id_remove_last, listeners_removeListener;
    case_decide; rewrite ?count_id_remove_last; done.
Qed.

(** A fresh promise is the identity of no registered closure. *)
Lemma attached_fresh (event : string) (s : State) :
  listeners_known s ->
  attached (fresh (dom (target_promises s))) event s = 0%nat.
Proof.
  intros Hknown. unfold attached, count_id.
  specialize (Hknown event).
  induction (EventEmitter.listeners event s) as [|l ls IH]; [done |].
  simpl. destruct (Nat.eqb (check_resolve l) _) eqn:E.
  - apply Nat.eqb_eq in E.
    destruct (is_fresh (dom (target_promises s))).
    rewrite <- E. apply Hknown. by left.
  - apply IH. intros l' Hl'. apply Hknown. by right.
Qed.

Lemma count_id_remove_first_ne (p q : nat) (ls : list Listener) :
  q ≠ p ->
  count_id q (EventEmitter.remove_first p ls) = count_id q ls.
Proof.
  intros Hne. unfold count_id.
  induction ls as [|l ls IH]; [done |].
  simpl. destruct (Nat.eqb (check_resolve l) p) eqn:E; simpl.
  - apply Nat.eqb_eq in E.
    by assert (Nat.eqb (check_resolve l) q = false) as ->
      by (apply Nat.eqb_neq; congruence).
  - destruct (Nat.eqb (check_resolve l) q); simpl; by rewrite IH.
Qed.

Lemma count_id_remove_last_ne (p q : nat) (ls : list Listener) :
  q ≠ p ->
  count_id q (EventEmitter.remove_last p ls) = count_id q ls.
Proof.
  intros Hne. unfold EventEmitter.remove_last.
  by rewrite count_id_rev, count_id_remove_first_ne, count_id_rev.
Qed.

Lemma attached_unsubscribe_ne (Events : EventsTable) (check : Listener)
    (q : nat) (event : string) (s : State) :
  q ≠ check_resolve check ->
  attached q event (unsubscribe Events check s).2 = attached q event s.
Proof.
  intros Hne. unfold unsubscribe, attached.
  change ((bind (EventEmitter.removeListener
                   (TargetCreated (Events_Browser Events)) check)
             (fun _ => EventEmitter.removeListener
                         (TargetChanged (Events_Browser Events)) check) s).2)
    with ((EventEmitter.removeListener
             (TargetChanged (Events_Browser Events)) check
             (EventEmitter.removeListener
                (TargetCreated (Events_Browser Events)) check s).2).2).
  rewrite listeners_removeListener.
  case_decide; rewrite ?count_id_remove_last_ne, listeners_removeListener
    by done;
    case_decide; rewrite ?count_id_remove_last_ne by done; done.
Qed.

(** A suspended wait is woken only to run the rest of its body. *)
Lemma resume_suspension (p : nat) (timeout : Z) (s : State)
    (k : Result loc -> Co loc) (w : Wakeup) (s' : State)
    (out : Async loc * State) :
  resume (suspension p timeout s k) w s' = Some out ->
  exists r, out = k r s'.
Proof.
  unfold suspension, resume, settled.
  destruct (Z.eqb timeout 0), w; try discriminate;
    destruct (target_promises s' !! p) as [[| |]|]; simpl;
    try discriminate; try (intros [= <-]; by eexists).
  destruct (Z.leb _ _); [| discriminate].
  intros [= <-]. by eexists.
Qed.

(** C6.  A call of [waitForTarget] that finds no matching target registers
    its closure on the target-created and the target-changed events.  From
    any later state in which that closure is attached as the call attached
    it, every way the call settles -- resolution with a target, rejection by
    the timeout, or any other outcome [r] of the [await] -- settles the call
    with that outcome and leaves no instance of the closure attached to any
    event of the [Browser]; the closures of other waits stay as they are. *)
Theorem waitForTarget_removes_listeners (Events : EventsTable)
    (predicate : loc -> TargetObj -> bool) (options : option Options)
    (s : State) :
  listeners_known s ->
  no_existing_target predicate s ->
  let call := Browser.waitForTarget Events predicate options s in
  let p := fresh (dom (target_promises s)) in
  (1 <= attached p (TargetCreated (Events_Browser Events)) call.2)%nat /\
  (1 <= attached p (TargetChanged (Events_Browser Events)) call.2)%nat /\
  (exists k,
     (call.1 = AwaitTarget p k \/
      exists timeout deadline,
        call.1 = AwaitRace p "target" timeout deadline k) /\
     forall r s',
       (forall event, attached p event s' = attached p event call.2) ->
       (k r s').1 = Settled r /\
       (forall event, attached p event (k r s').2 = 0%nat) /\
       (forall q event,
          q ≠ p -> attached q event (k r s').2 = attached q event s')) /\
  (forall w s' out,
     (forall event, attached p event s' = attached p event call.2) ->
     resume call.1 w s' = Some out ->
     (exists r, out.1 = Settled r) /\
     (forall event, attached p event out.2 = 0%nat)).
Proof.
  intros Hknown Hnone call p.
  destruct (waitForTarget_body Events predicate options s Hnone)
    as (k & Hcall & Hk).
  set (check := {| check_resolve := p; check_predicate := predicate |}).
  fold p in Hcall, Hk. fold check in Hcall, Hk.
  assert (forall event,
    attached p event call.2
      = ((if decide (TargetCreated (Events_Browser Events) = event)
          then 1 else 0)
         + (if decide (TargetChanged (Events_Browser Events) = event)
            then 1 else 0))%nat) as Hsub.
  { intros event. subst call. rewrite Hcall. cbn [fst snd].
    change (attached p event) with (attached (check_resolve check) event).
    rewrite (attached_subscribe Events check event).
    change (attached (check_resolve check) event (set_target_promises _ s))
      with (attached p event s).
    unfold p. by rewrite attached_fresh. }
  assert (forall r s',
    (forall event, attached p event s' = attached p event call.2) ->
    (k r s').1 = Settled r /\
    (forall event, attached p event (k r s').2 = 0%nat) /\
    (forall q event,
       q ≠ p -> attached q event (k r s').2 = attached q event s'))
    as Hsettle.
  { intros r s' Hframe. rewrite Hk. cbn [fst snd].
    split; [done |]. split.
    - intros event.
      change (attached p event)
        with (attached (check_resolve check) event).
      rewrite (attached_unsubscribe Events check event s').
      change (check_resolve check) with p.
      rewrite Hframe, Hsub.
      repeat case_decide; reflexivity.
    - intros q event Hq.
      by apply (attached_unsubscribe_ne Events check). }
  assert (forall w s' out,
    resume call.1 w s' = Some out -> exists r, out = k r s')
    as Hsettle_resume.
  { intros w s' out. subst call. rewrite Hcall. cbn [fst snd].
    apply resume_suspension. }
  split; [rewrite Hsub; rewrite decide_True by done; lia |].
  split; [rewrite Hsub; rewrite (decide_True (P := TargetChanged _ = _))
            by done; lia |].
  split.
  - exists k. split; [| done].
    subst call. rewrite Hcall. cbn [fst snd]. unfold suspension.
    destruct (Z.eqb _ 0); [by left | right; by eexists _, _].
  - intros w s' out Hframe Hresume.
    destruct (Hsettle_resume w s' out Hresume) as [r ->].
    destruct (Hsettle r s' Hframe) as (Hr & Hzero & _).
    split; [by eexists | done].
Qed.

Lemma listeners_known_new : listeners_known Browser.new.
Proof.
  intros event l Hl. unfold EventEmitter.listeners, Browser.new in Hl.
  simpl in Hl. rewrite lookup_empty in Hl. destruct Hl.
Qed.

Lemma attached_set_now (p : nat) (event : string) (f : Z -> Z) (s : State) :
  attached p event (set_now f s) = attached p event s.
Proof. reflexivity. Qed.

Lemma waitForTarget_removes_listeners_witness :
  let call :=
    Browser.waitForTarget example_events (fun _ _ => false) None
      Browser.new in
  let p := fresh (dom (target_promises Browser.new)) in
  exists out,
    resume call.1 TimerExpired (set_now (fun _ => 30000) call.2) = Some out /\
    (exists r, out.1 = Settled r) /\
    (forall event, attached p event out.2 = 0%nat).
Proof.
  intros call p.
  assert (no_existing_target (fun _ _ => false) Browser.new) as Hnone
    by (vm_compute; reflexivity).
  destruct (waitForTarget_removes_listeners example_events
              (fun _ _ => false) None Browser.new
              listeners_known_new Hnone) as (_ & _ & _ & Hsettle).
  fold call in Hsettle. fold p in Hsettle.
  destruct (resume call.1 TimerExpired (set_now (fun _ => 30000) call.2))
    as [out|] eqn:Hout; [| vm_compute in Hout; discriminate].
  exists out. split; [reflexivity |].
  apply (Hsettle TimerExpired (set_now (fun _ => 30000) call.2) out).
  - intros event. apply attached_set_now.
  - exact Hout.
Defined.

(** *** The timeout of a wait (C5) *)

(** C5.  A wait without a timeout option runs with 30000 ms.  Whatever the
    timeout, a target that matches already settles the call at once.
    Otherwise, with timeout 0 no timer exists: the timer wake-up is never
    enabled, nothing wakes the call while its promise is pending, and a
    fulfilled promise resolves the call with its target.  With a timeout
    [t > 0] and the promise still pending (no matching target arrived), the
    timer wakes the call once [t] ms have passed since the call, not
    earlier, and the call rejects with the [TimeoutError] that carries the
    operation name "target" and the bound [t]. *)
Theorem waitForTarget_timeout (Events : EventsTable)
    (predicate : loc -> TargetObj -> bool) (s : State) :
  Browser.waitForTarget Events predicate None s
    = Browser.waitForTarget Events predicate
        (Some {| timeout := Some 30000 |}) s /\
  Browser.waitForTarget Events predicate (Some {| timeout := None |}) s
    = Browser.waitForTarget Events predicate
        (Some {| timeout := Some 30000 |}) s /\
  (forall options existingTarget,
     List.find (fun t => predicate t (targets_heap s !!! t))
       (JsMap.values (_targets s)) = Some existingTarget ->
     Browser.waitForTarget Events predicate options s
       = (Settled (Ok existingTarget), s)) /\
  (no_existing_target predicate s ->
   let p := fresh (dom (target_promises s)) in
   (let call :=
      Browser.waitForTarget Events predicate
        (Some {| timeout := Some 0 |}) s in
    (forall s', resume call.1 TimerExpired s' = None) /\
    (forall s' w,
       target_promises s' !! p = Some Pending ->
       resume call.1 w s' = None) /\
    (forall s' target,
       target_promises s' !! p = Some (Fulfilled target) ->
       exists s'',
         resume call.1 PromiseSettled s'
           = Some (Settled (Ok target), s''))) /\
   (forall t,
      0 < t ->
      let call :=
        Browser.waitForTarget Events predicate
          (Some {| timeout := Some t |}) s in
      forall s',
        target_promises s' !! p = Some Pending ->
        (now s + t <= now s' ->
         exists s'',
           resume call.1 TimerExpired s'
             = Some (Settled (Err (TimeoutError "target" t)), s'')) /\
        (now s' < now s + t -> resume call.1 TimerExpired s' = None) /\
        resume call.1 PromiseSettled s' = None)).
Proof.
  split; [reflexivity |]. split; [reflexivity |].
  split; [intros; by apply waitForTarget_existing |].
  intros Hnone p. split.
  - destruct (waitForTarget_body Events predicate
                (Some {| timeout := Some 0 |}) s Hnone) as (k & -> & Hk).
    cbn [fst snd suspension Z.eqb]. fold p.
    split; [done |]. split.
    + intros s' w Hpending. destruct w; simpl; [done | | done].
      by rewrite Hpending.
    + intros s' target Hfulfilled. simpl. rewrite Hfulfilled. simpl.
      rewrite Hk. by eexists.
  - intros t Ht.
    destruct (waitForTarget_body Events predicate
                (Some {| timeout := Some t |}) s Hnone) as (k & -> & Hk).
    cbn [fst snd]. unfold suspension. fold p.
    assert (Z.eqb t 0 = false) as -> by lia.
    intros s' Hpending. simpl. rewrite Hpending. simpl.
    split; [| split; [| done]].
    + intros Hlate.
      assert (Z.leb (now s + t) (now s') = true) as -> by lia.
      rewrite Hk. by eexists.
    + intros Hearly.
      by assert (Z.leb (now s + t) (now s') = false) as -> by lia.
Qed.

Lemma waitForTarget_timeout_witness :
  let call :=
    Browser.waitForTarget example_events (fun _ _ => false)
      (Some {| timeout := Some 1 |}) Browser.new in
  exists s'',
    resume call.1 TimerExpired (set_now (fun _ => 1) call.2)
      = Some (Settled (Err (TimeoutError "target" 1)), s'').
Proof.
  intros call.
  assert (no_existing_target (fun _ _ => false) Browser.new) as Hnone
    by (vm_compute; reflexivity).
  destruct (waitForTarget_timeout example_events (fun _ _ => false)
              Browser.new) as (_ & _ & _ & Htimeout).
  destruct (Htimeout Hnone) as [_ Hpositive].
  apply (Hpositive 1 ltac:(lia) (set_now (fun _ => 1) call.2)).
  - vm_compute. reflexivity.
  - vm_compute. discriminate.
Defined.

(** *** Events that resolve a wait (C4) *)

Lemma emit_notify (event : string) (target : loc) (s : State) :
  EventEmitter.emit event target s
    = (Ok tt,
       notify target (EventEmitter.listeners event s)
         (set_trace (fun t => t ++ [OpEmit OnBrowser event target]) s)).
Proof. reflexivity. Qed.

Lemma check_targets_heap (l : Listener) (target : loc) (s : State) :
  targets_heap (EventEmitter.check l target s) = targets_heap s.
Proof.
  unfold EventEmitter.check, EventEmitter.resolve.
  destruct (check_predicate l target _); [| done].
  by destruct (target_promises s !! check_resolve l) as [[| |]|].
Qed.

Lemma check_fulfilled_stays (l : Listener) (target : loc) (p : nat)
    (v : loc) (s : State) :
  target_promises s !! p = Some (Fulfilled v) ->
  target_promises (EventEmitter.check l target s) !! p = Some (Fulfilled v).
Proof.
  intros Hp. unfold EventEmitter.check, EventEmitter.resolve.
  destruct (check_predicate l target _); [| done].
  destruct (target_promises s !! check_resolve l) as [[| |]|] eqn:E;
    try done.
  simpl. rewrite lookup_insert_ne; [done |]. congruence.
Qed.

Lemma check_pending_steps (l : Listener) (target : loc) (p : nat)
    (s : State) :
  target_promises s !! p = Some Pending ->
  target_promises (EventEmitter.check l target s) !! p = Some Pending \/
  target_promises (EventEmitter.check l target s) !! p
    = Some (Fulfilled target).
Proof.
  intros Hp. unfold EventEmitter.check, EventEmitter.resolve.
  destruct (check_predicate l target _); [| by left].
  destruct (target_promises s !! check_resolve l) as [[| |]|] eqn:E;
    try by left.
  simpl. destruct (decide (check_resolve l = p)) as [-> | Hne].
  - right. apply lookup_insert_eq.
  - left. by rewrite lookup_insert_ne.
Qed.

Lemma check_resolves (predicate : loc -> TargetObj -> bool) (target : loc)
    (p : nat) (s : State) :
  predicate target (targets_heap s !!! target) = true ->
  target_promises s !! p = Some Pending ->
  target_promises
    (EventEmitter.check
       {| check_resolve := p; check_predicate := predicate |} target s) !! p
    = Some (Fulfilled target).
Proof.
  intros Hpred Hp. unfold EventEmitter.check, EventEmitter.resolve. simpl.
  rewrite Hpred, Hp. simpl. apply lookup_insert_eq.
Qed.

Lemma check_no_match (l : Listener) (target : loc) (p : nat) (s : State) :
  (check_resolve l = p ->
   check_predicate l target (targets_heap s !!! target) = false) ->
  target_promises s !! p = Some Pending ->
  target_promises (EventEmitter.check l target s) !! p = Some Pending.
Proof.
  intros Hl Hp. unfold EventEmitter.check, EventEmitter.resolve.
  destruct (check_predicate l target _) eqn:Hpred; [| done].
  destruct (target_promises s !! check_resolve l) as [[| |]|] eqn:E;
    try done.
  simpl. rewrite lookup_insert_ne; [done |].
  intros Heq. specialize (Hl Heq). congruence.
Qed.

Lemma notify_targets_heap (target : loc) (ls : list Listener) (s : State) :
  targets_heap (notify target ls s) = targets_heap s.
Proof.
  revert s. induction ls as [|l ls IH]; intros s; [done |].
  simpl. by rewrite IH, check_targets_heap.
Qed.

Lemma notify_targets (target : loc) (ls : list Listener) (s : State) :
  _targets (notify target ls s) = _targets s.
Proof.
  unfold notify. by destruct (check_listeners_frame target ls s) as [tp ->].
Qed.

Lemma notify_fulfilled_stays (target : loc) (ls : list Listener) (p : nat)
    (v : loc) (s : State) :
  target_promises s !! p = Some (Fulfilled v) ->
  target_promises (notify target ls s) !! p = Some (Fulfilled v).
Proof.
  revert s. induction ls as [|l ls IH]; intros s Hp; [done |].
  simpl. by apply IH, check_fulfilled_stays.
Qed.

Lemma notify_resolves (predicate : loc -> TargetObj -> bool) (target : loc)
    (ls : list Listener) (p : nat) (s : State) :
  In {| check_resolve := p; check_predicate := predicate |} ls ->
  predicate target (targets_heap s !!! target) = true ->
  target_promises s !! p = Some Pending ->
  target_promises (notify target ls s) !! p = Some (Fulfilled target).
Proof.
  revert s. induction ls as [|l ls IH]; intros s Hin Hpred Hp; [done |].
  simpl. destruct Hin as [-> | Hin].
  - by apply notify_fulfilled_stays, check_resolves.
  - destruct (check_pending_steps l target p s Hp) as [Hp' | Hp'].
    + apply IH; [done | by rewrite check_targets_heap | done].
    + by apply notify_fulfilled_stays.
Qed.

Lemma notify_no_match (target : loc) (ls : list Listener) (p : nat)
    (s : State) :
  (forall l, In l ls -> check_resolve l = p ->
     check_predicate l target (targets_heap s !!! target) = false) ->
  target_promises s !! p = Some Pending ->
  target_promises (notify target ls s) !! p = Some Pending.
Proof.
  revert s. induction ls as [|l ls IH]; intros s Hls Hp; [done |].
  simpl. apply IH.
  - intros l' Hl'. rewrite check_targets_heap. apply Hls. by right.
  - apply check_no_match; [| done]. apply Hls. by left.
Qed.

Lemma onTargetCreated_run (Events : EventsTable) (targetInfo : TargetInfo)
    (s : State) :
  let target := fresh (dom (targets_heap s)) in
  Browser._onTargetCreated Events targetInfo s
    = (Ok tt,
       set_trace
         (fun t => t ++
            [OpEmit (OnContext (owning_context targetInfo s))
               (TargetCreated (Events_BrowserContext Events)) target])
         (EventEmitter.emit (TargetCreated (Events_Browser Events)) target
            (registered targetInfo s)).2).
Proof.
  unfold Browser._onTargetCreated, Target.new, EventEmitter.emit_on_context,
    registered.
  unfold owning_context.
  destruct (browserContextId targetInfo) as [id|]; [| reflexivity].
  destruct (truthy (Some id)); [| reflexivity].
  unfold bind at 1. unfold gets at 1.
  destruct (JsMap.get id (_contexts s)); reflexivity.
Qed.

Lemma onTargetChanged_run (Events : EventsTable) (target : loc) (s : State) :
  Browser._onTargetChanged Events target s
    = (Ok tt,
       set_trace
         (fun t => t ++
            [OpEmit (OnContext (_browserContext (targets_heap s !!! target)))
               (TargetChanged (Events_BrowserContext Events)) target])
         (EventEmitter.emit (TargetChanged (Events_BrowserContext Events))
            target s).2).
Proof.
  unfold Browser._onTargetChanged, Target.browserContext,
    EventEmitter.emit_on_context, log.
  unfold bind, gets, modify. rewrite !emit_notify. cbn [snd].
  by rewrite notify_targets_heap.
Qed.

Lemma subscribe_steps (Events : EventsTable) (check : Listener) (s : State) :
  (subscribe Events check s).2
    = (EventEmitter.on (TargetChanged (Events_Browser Events)) check
         (EventEmitter.on (TargetCreated (Events_Browser Events)) check
            s).2).2.
Proof. reflexivity. Qed.

(** C4.  A call of [waitForTarget] that finds no matching target registers
    its closure [check] on the target-created and on the target-changed
    event of the [Browser] and waits for its promise [p], which is pending.
    From then on: an emission, on an event that has [check] attached, of a
    target that satisfies the predicate fulfils [p] with that target; an
    emission of a target that does not satisfy it leaves [p] pending; once
    fulfilled, [p] keeps its target through every later emission, so the
    first matching event wins; and the fulfilled promise resolves the call
    with that target.  In particular [_onTargetCreated] fulfils [p] with a
    new target that satisfies the predicate, and so does [_onTargetChanged]
    for a target that satisfies it, given that [./events] gives the
    target-changed event the same name on the [Browser] and on the
    [BrowserContext] ([_onTargetChanged] emits under the latter's name). *)
Theorem waitForTarget_resolved_by_events (Events : EventsTable)
    (predicate : loc -> TargetObj -> bool) (options : option Options)
    (s : State) :
  no_existing_target predicate s ->
  let call := Browser.waitForTarget Events predicate options s in
  let p := fresh (dom (target_promises s)) in
  let check := {| check_resolve := p; check_predicate := predicate |} in
  let created := TargetCreated (Events_Browser Events) in
  let changed := TargetChanged (Events_Browser Events) in
  In check (EventEmitter.listeners created call.2) /\
  In check (EventEmitter.listeners changed call.2) /\
  target_promises call.2 !! p = Some Pending /\
  (forall event target s',
     In check (EventEmitter.listeners event s') ->
     target_promises s' !! p = Some Pending ->
     predicate target (targets_heap s' !!! target) = true ->
     target_promises (EventEmitter.emit event target s').2 !! p
       = Some (Fulfilled target)) /\
  (forall event target s',
     (forall l, In l (EventEmitter.listeners event s') ->
        check_resolve l = p -> check_predicate l = predicate) ->
     target_promises s' !! p = Some Pending ->
     predicate target (targets_heap s' !!! target) = false ->
     target_promises (EventEmitter.emit event target s').2 !! p
       = Some Pending) /\
  (forall event target v s',
     target_promises s' !! p = Some (Fulfilled v) ->
     target_promises (EventEmitter.emit event target s').2 !! p
       = Some (Fulfilled v)) /\
  (forall v s',
     target_promises s' !! p = Some (Fulfilled v) ->
     exists s'',
       resume call.1 PromiseSettled s' = Some (Settled (Ok v), s'')) /\
  (forall targetInfo s',
     In check (EventEmitter.listeners created s') ->
     target_promises s' !! p = Some Pending ->
     let s'' := (Browser._onTargetCreated Events targetInfo s').2 in
     forall target,
       JsMap.get (targetId targetInfo) (_targets s'') = Some target ->
       predicate target (targets_heap s'' !!! target) = true ->
       target_promises s'' !! p = Some (Fulfilled target)) /\
  (TargetChanged (Events_BrowserContext Events) = changed ->
   forall target s',
     In check (EventEmitter.listeners changed s') ->
     target_promises s' !! p = Some Pending ->
     predicate target (targets_heap s' !!! target) = true ->
     target_promises (Browser._onTargetChanged Events target s').2 !! p
       = Some (Fulfilled target)).
Proof.
  intros Hnone call p check created changed.
  destruct (waitForTarget_body Events predicate options s Hnone)
    as (k & Hcall & Hk).
  fold p in Hcall, Hk. fold check in Hcall, Hk.
  assert (forall event target s',
    In check (EventEmitter.listeners event s') ->
    target_promises s' !! p = Some Pending ->
    predicate target (targets_heap s' !!! target) = true ->
    target_promises (EventEmitter.emit event target s').2 !! p
      = Some (Fulfilled target)) as Hemit.
  { intros event target s' Hin Hp Hpred. rewrite emit_notify. cbn [snd].
    by apply (notify_resolves predicate). }
  split; [| split; [| split; [| split; [done |]]]].
  - subst call. rewrite Hcall. cbn [snd]. rewrite subscribe_steps.
    rewrite listeners_on. case_decide.
    + apply in_or_app. left. rewrite listeners_on, decide_True by done.
      apply in_or_app. right. by left.
    + rewrite listeners_on, decide_True by done.
      apply in_or_app. right. by left.
  - subst call. rewrite Hcall. cbn [snd]. rewrite subscribe_steps.
    rewrite listeners_on, decide_True by done.
    apply in_or_app. right. by left.
  - subst call. rewrite Hcall. cbn [snd]. unfold subscribe, EventEmitter.on.
    run. apply lookup_insert_eq.
  - split; [| split; [| split; [| split]]].
    + intros event target s' Hclosure Hp Hpred.
      rewrite emit_notify. cbn [snd]. apply notify_no_match; [| done].
      intros l Hl Hid. simpl. by rewrite (Hclosure l Hl Hid).
    + intros event target v s' Hp. rewrite emit_notify. cbn [snd].
      by apply notify_fulfilled_stays.
    + intros v s' Hp. subst call. rewrite Hcall. cbn [fst].
      unfold suspension. destruct (Z.eqb _ 0); simpl; rewrite Hp; simpl;
        rewrite Hk; by eexists.
    + intros targetInfo s' Hin Hp s'' target Hget Hpred.
      subst s''. rewrite onTargetCreated_run in Hget, Hpred |- *.
      cbn [snd] in Hget, Hpred |- *.
      rewrite emit_notify in Hget, Hpred |- *.
      cbn [snd] in Hget, Hpred |- *.
      change (_targets (set_trace ?f ?x)) with (_targets x) in Hget.
      rewrite notify_targets in Hget.
      change (_targets (set_trace ?f (registered ?ti ?x)))
        with (JsMap.set (targetId ti) (fresh (dom (targets_heap x)))
                (_targets x)) in Hget.
      rewrite JsMap_get_set_eq in Hget. injection Hget as <-.
      change (targets_heap (set_trace ?f ?x)) with (targets_heap x)
        in Hpred.
      rewrite notify_targets_heap in Hpred.
      change (target_promises (set_trace ?f ?x)) with (target_promises x).
      apply (notify_resolves predicate); [exact Hin | exact Hpred | exact Hp].
    + intros Hname target s' Hin Hp Hpred.
      rewrite onTargetChanged_run. cbn [snd].
      change (target_promises (set_trace ?f ?x)) with (target_promises x).
      rewrite Hname. by apply Hemit.
Qed.

Lemma waitForTarget_resolved_by_events_witness :
  let call :=
    Browser.waitForTarget example_events has_page None browser_with_A in
  let p := fresh (dom (target_promises browser_with_A)) in
  let s' := (Target.page 0%nat call.2).2 in
  target_promises (Browser._onTargetChanged example_events 0%nat s').2 !! p
    = Some (Fulfilled 0%nat).
Proof.
  intros call p s'.
  assert (no_existing_target has_page browser_with_A) as Hnone
    by (vm_compute; reflexivity).
  destruct (waitForTarget_resolved_by_events example_events has_page None
              browser_with_A Hnone)
    as (_ & _ & _ & _ & _ & _ & _ & _ & Hchanged).
  apply Hchanged.
  - reflexivity.
  - vm_compute. left. reflexivity.
  - vm_compute. reflexivity.
  - vm_compute. reflexivity.
Defined.

(** *** What the environment of a wait preserves *)

(** The notification handlers register and remove no listener, and create
    no promise of a wait: between the subscription of a wait and its
    settlement they leave its closure attached as it is, and they keep
    [listeners_known]. *)

Lemma notify_events (target : loc) (ls : list Listener) (s : State) :
  _events (notify target ls s) = _events s.
Proof.
  unfold notify. by destruct (check_listeners_frame target ls s) as [tp ->].
Qed.

Lemma check_promises_dom (l : Listener) (target : loc) (s : State) :
  dom (target_promises (EventEmitter.check l target s))
    = dom (target_promises s).
Proof.
  unfold EventEmitter.check, EventEmitter.resolve.
  destruct (check_predicate l target _); [| done].
  destruct (target_promises s !! check_resolve l) as [[| |]|] eqn:E;
    try done.
  simpl. rewrite dom_insert_L.
  assert (check_resolve l ∈ dom (target_promises s)) as Hin
    by (apply elem_of_dom; eauto).
  apply set_eq. intros q. rewrite elem_of_union, elem_of_singleton.
  split; [intros [-> | ?]; done | by right].
Qed.

Lemma notify_promises_dom (target : loc) (ls : list Listener) (s : State) :
  dom (target_promises (notify target ls s)) = dom (target_promises s).
Proof.
  revert s. induction ls as [|l ls IH]; intros s; [done |].
  simpl. by rewrite IH, check_promises_dom.
Qed.

Lemma onTargetCreated_keeps_listeners (Events : EventsTable)
    (targetInfo : TargetInfo) (s : State) :
  let s' := (Browser._onTargetCreated Events targetInfo s).2 in
  _events s' = _events s /\
  dom (target_promises s') = dom (target_promises s).
Proof.
  rewrite onTargetCreated_run. cbn [snd]. rewrite emit_notify. cbn [snd].
  change (_events (set_trace ?f ?x)) with (_events x).
  change (target_promises (set_trace ?f ?x)) with (target_promises x).
  by rewrite notify_events, notify_promises_dom.
Qed.

Lemma onTargetChanged_keeps_listeners (Events : EventsTable)
    (target : loc) (s : State) :
  let s' := (Browser._onTargetChanged Events target s).2 in
  _events s' = _events s /\
  dom (target_promises s') = dom (target_promises s).
Proof.
  rewrite onTargetChanged_run. cbn [snd]. rewrite emit_notify. cbn [snd].
  change (_events (set_trace ?f ?x)) with (_events x).
  change (target_promises (set_trace ?f ?x)) with (target_promises x).
  by rewrite notify_events, notify_promises_dom.
Qed.

Lemma onTargetDestroyed_keeps_listeners (Events : EventsTable)
    (targetId : string) (s : State) :
  let s' := (Browser._onTargetDestroyed Events targetId s).2 in
  _events s' = _events s /\
  dom (target_promises s') = dom (target_promises s).
Proof.
  unfold Browser._onTargetDestroyed, Target._closedCallback,
    Target.browserContext, EventEmitter.emit_on_context, log.
  unfold bind, gets, modify, throw. cbn [fst snd].
  destruct (JsMap.get targetId (_targets s)) as [target|]; [| done].
  rewrite emit_notify. cbn [fst snd].
  change (_events (set_trace ?f ?x)) with (_events x).
  change (target_promises (set_trace ?f ?x)) with (target_promises x).
  by rewrite notify_events, notify_promises_dom.
Qed.

Lemma listeners_known_frame (s s' : State) :
  _events s' = _events s ->
  dom (target_promises s') = dom (target_promises s) ->
  listeners_known s -> listeners_known s'.
Proof.
  intros Hev Hdom Hknown event l. unfold EventEmitter.listeners.
  rewrite Hev, Hdom. apply Hknown.
Qed.

Lemma attached_frame (p : nat) (event : string) (s s' : State) :
  _events s' = _events s -> attached p event s' = attached p event s.
Proof.
  intros Hev. unfold attached, EventEmitter.listeners. by rewrite Hev.
Qed.

Lemma on_target_promises (event : string) (l : Listener) (s : State) :
  target_promises (EventEmitter.on event l s).2 = target_promises s.
Proof. reflexivity. Qed.

(** The subscription of a wait keeps [listeners_known]. *)
Lemma waitForTarget_keeps_listeners_known (Events : EventsTable)
    (predicate : loc -> TargetObj -> bool) (options : option Options)
    (s : State) :
  listeners_known s ->
  listeners_known (Browser.waitForTarget Events predicate options s).2.
Proof.
  intros Hknown.
  destruct (List.find (fun t => predicate t (targets_heap s !!! t))
              (JsMap.values (_targets s))) as [existing|] eqn:Hfind.
  - by rewrite (waitForTarget_existing Events predicate options existing s).
  - destruct (waitForTarget_body Events predicate options s Hfind)
      as (k & -> & _).
    cbn [snd]. rewrite subscribe_steps.
    intros event l. rewrite listeners_on.
    set (p := fresh (dom (target_promises s))).
    assert (forall event l,
      In l (EventEmitter.listeners event
              (EventEmitter.on (TargetCreated (Events_Browser Events))
                 {| check_resolve := p; check_predicate := predicate |}
                 (set_target_promises (insert p Pending) s)).2) ->
      check_resolve l ∈ dom (<[p:=Pending]> (target_promises s)))
      as Hfirst.
    { intros event' l'. rewrite listeners_on.
      rewrite dom_insert_L.
      case_decide.
      - intros [Hl' | [<- | []]]%in_app_or.
        + apply elem_of_union_r. by apply (Hknown event').
        + apply elem_of_union_l. by apply elem_of_singleton.
      - intros Hl'. apply elem_of_union_r. by apply (Hknown event'). }
    rewrite !on_target_promises.
    change (target_promises (set_target_promises ?f ?x))
      with (f (target_promises x)).
    case_decide.
    + intros [Hl | [<- | []]]%in_app_or.
      * by apply (Hfirst event).
      * rewrite dom_insert_L. apply elem_of_union_l.
        by apply elem_of_singleton.
    + apply Hfirst.
Qed.

(** ** Examples *)

(** The first [page()] on a page target starts the materialization; the
    second one receives the same promise. *)
Lemma Target_page_once (target : loc) (s : State) :
  type (_targetInfo (targets_heap s !!! target)) = "page"%string ->
  _pagePromise (targets_heap s !!! target) = None ->
  is_Some (targets_heap s !! target) ->
  let p := fresh (dom (page_promises s)) in
  (Target.page target s).1 = Ok (Some p) /\
  page_promises (Target.page target s).2 !! p = Some Pending /\
  Target.page target (Target.page target s).2
    = (Ok (Some p), (Target.page target s).2).
Proof.
  intros Htype Hnone [t Ht] p.
  assert (Target.page target s
          = (Ok (Some p),
             set_targets_heap (alter (Target.with_pagePromise (Some p)) target)
               (set_page_promises (insert p Pending) s))) as ->.
  { unfold Target.page, Target.set_pagePromise. run.
    rewrite Htype, Hnone. reflexivity. }
  cbn [fst snd]. split; [done |]. split; [apply lookup_insert_eq |].
  apply Target_page_cached. simpl.
  by rewrite lookup_total_alt, lookup_alter_eq, Ht.
Qed.

(** A context created under the id "ctx-1" is registered under it. *)
Example createIncognitoBrowserContext_example :
  let call := Browser.createIncognitoBrowserContext Browser.new in
  exists s',
    resume call.1 (Replied (Ok "ctx-1"%string)) call.2
      = Some (Settled (Ok 1%nat), s') /\
    _contexts s' = [("ctx-1"%string, 1%nat)] /\
    contexts_heap s' !! 1%nat = Some {| _id := Some "ctx-1"%string |} /\
    trace s' = [OpSend Browser_createContext; OpContextsSet "ctx-1" 1%nat].
Proof. eexists. repeat split; vm_compute; reflexivity. Qed.

(** A target of a known context belongs to it; a target of an unknown
    context and a target without a context id belong to the default
    context. *)
Example onTargetCreated_example :
  let owner_of targetInfo :=
    _browserContext
      (targets_heap
         (Browser._onTargetCreated example_events targetInfo
            browser_with_context).2 !!! 0%nat) in
  owner_of {| targetId := "T"; browserContextId := Some "ctx-1"%string;
              type := "page" |} = 1%nat /\
  owner_of {| targetId := "T"; browserContextId := Some "ctx-9"%string;
              type := "page" |} = 0%nat /\
  owner_of {| targetId := "T"; browserContextId := None;
              type := "page" |} = 0%nat.
Proof. repeat split; vm_compute; reflexivity. Qed.

(** Closing the incognito context sends the delete command and, on its
    reply, removes the context from the map. *)
Example close_incognito_context_example :
  let call := BrowserContext.close 1%nat browser_with_context in
  exists s',
    resume call.1 (Replied (Ok EmptyString)) call.2
      = Some (Settled (Ok tt), s') /\
    _contexts s' = [] /\
    trace s'
      = [OpSend Browser_createContext; OpContextsSet "ctx-1" 1%nat;
         OpSend (Browser_deleteContext (Some "ctx-1"%string));
         OpContextsDelete (Some "ctx-1"%string)].
Proof. eexists. repeat split; vm_compute; reflexivity. Qed.

(** * Further properties of the registries *)

(** ** The insertion-ordered map, continued *)

Lemma JsMap_delete_absent {V} (k : string) (m : JsMap.t V) :
  JsMap.get k m = None -> JsMap.delete k m = m.
Proof.
  unfold JsMap.get, JsMap.delete.
  induction m as [|[k' v'] m IH]; simpl; [done |].
  destruct (String.eqb k' k) eqn:E; simpl; [done |].
  intros Hm. by rewrite IH.
Qed.

Lemma JsMap_delete_set_absent {V} (k : string) (v : V) (m : JsMap.t V) :
  JsMap.get k m = None -> JsMap.delete k (JsMap.set k v m) = m.
Proof.
  unfold JsMap.get, JsMap.delete.
  induction m as [|[k' v'] m IH]; simpl.
  - by rewrite String.eqb_refl.
  - destruct (String.eqb k' k) eqn:E; simpl; [done |].
    intros Hm. by rewrite E, IH.
Qed.

Lemma JsMap_set_absent {V} (k : string) (v : V) (m : JsMap.t V) :
  JsMap.get k m = None -> JsMap.set k v m = m ++ [(k, v)].
Proof.
  unfold JsMap.get.
  induction m as [|[k' v'] m IH]; simpl; [done |].
  destruct (String.eqb k' k) eqn:E; simpl; [done |].
  intros Hm. by rewrite IH.
Qed.

Lemma JsMap_set_present {V} (k : string) (v v0 : V) (m : JsMap.t V) :
  JsMap.get k m = Some v0 ->
  exists m1 m2,
    m = m1 ++ (k, v0) :: m2 /\
    JsMap.get k m1 = None /\
    JsMap.set k v m = m1 ++ (k, v) :: m2.
Proof.
  unfold JsMap.get.
  induction m as [|[k' v'] m IH]; simpl; [done |].
  destruct (String.eqb k' k) eqn:E; simpl.
  - apply String.eqb_eq in E. subst k'. intros [= ->].
    by exists [], m.
  - intros Hm. destruct (IH Hm) as (m1 & m2 & -> & Hm1 & ->).
    exists ((k', v') :: m1), m2. simpl. by rewrite E.
Qed.

Lemma JsMap_get_In {V} (k : string) (v : V) (m : JsMap.t V) :
  JsMap.get k m = Some v -> In v (JsMap.values m).
Proof.
  unfold JsMap.get, JsMap.values.
  induction m as [|[k' v'] m IH]; simpl; [done |].
  destruct (String.eqb k' k); simpl.
  - intros [= ->]. by left.
  - intros Hm. right. by apply IH.
Qed.

Lemma JsMap_values_delete_In {V} (k : string) (v : V) (m : JsMap.t V) :
  In v (JsMap.values (JsMap.delete k m)) -> In v (JsMap.values m).
Proof.
  unfold JsMap.values, JsMap.delete.
  induction m as [|[k' v'] m IH]; simpl; [done |].
  destruct (String.eqb k' k); simpl.
  - intros Hm. right. by apply IH.
  - intros [<- | Hm]; [by left | right; by apply IH].
Qed.

Lemma JsMap_values_set_In {V} (k : string) (v v' : V) (m : JsMap.t V) :
  In v' (JsMap.values (JsMap.set k v m)) -> v' = v \/ In v' (JsMap.values m).
Proof.
  unfold JsMap.values.
  induction m as [|[k0 v0] m IH]; simpl.
  - intros [<- | []]. by left.
  - destruct (String.eqb k0 k); simpl.
    + intros [<- | Hm]; [by left | right; by right].
    + intros [<- | Hm]; [right; by left |].
      destruct (IH Hm) as [-> | Hin]; [by left | right; by right].
Qed.

(** ** Disposing a context *)

(** X1.  [_disposeContext] sends the delete command and changes nothing
    until the reply.  When the command fails the call rejects with that
    error and the state is as it was.  When it succeeds the call removes
    the id from the contexts map and nothing else: every other id keeps its
    context, and the targets -- also those that belong to the disposed
    context -- stay registered and keep their owner. *)
Theorem disposeContext_removes_only_the_id
    (browserContextId : option string) (s : State) :
  let call := Browser._disposeContext browserContextId s in
  call.2 = set_trace (fun t => t ++ [OpSend (Browser_deleteContext
                                               browserContextId)]) s /\
  (forall e s',
     resume call.1 (Replied (Err e)) s' = Some (Settled (Err e), s')) /\
  (forall r s',
     exists s'',
       resume call.1 (Replied (Ok r)) s' = Some (Settled (Ok tt), s'') /\
       (forall k, browserContextId = Some k ->
          JsMap.get k (_contexts s'') = None) /\
       (forall k, browserContextId ≠ Some k ->
          JsMap.get k (_contexts s'') = JsMap.get k (_contexts s')) /\
       _targets s'' = _targets s' /\
       targets_heap s'' = targets_heap s' /\
       contexts_heap s'' = contexts_heap s').
Proof.
  unfold Browser._disposeContext. run.
  split; [done |]. split; [done |].
  intros r s'. eexists. split; [reflexivity |]. simpl.
  split; [| split; [| done]].
  - intros k ->. apply JsMap_get_delete_eq.
  - intros k Hk. destruct browserContextId as [k0|]; [| done].
    apply JsMap_get_delete_ne. congruence.
Qed.

(** X2.  Creating a context under a new, non-empty id and then closing it
    is a round trip on the contexts map: [close()] passes its assertion,
    sends the delete command for that id and, on the reply, leaves the map
    -- and so [browserContexts()] -- as it was before the creation. *)
Theorem create_then_close_restores_contexts (id : string) (s0 s1 : State) :
  id ≠ EmptyString ->
  JsMap.get id (_contexts s1) = None ->
  exists context s2,
    resume (Browser.createIncognitoBrowserContext s0).1 (Replied (Ok id)) s1
      = Some (Settled (Ok context), s2) /\
    (exists k,
       (BrowserContext.close context s2).1
         = AwaitSend (Browser_deleteContext (Some id)) k) /\
    forall r,
      exists s3,
        resume (BrowserContext.close context s2).1 (Replied (Ok r))
          (BrowserContext.close context s2).2
          = Some (Settled (Ok tt), s3) /\
        _contexts s3 = _contexts s1 /\
        (Browser.browserContexts s3).1 = (Browser.browserContexts s1).1.
Proof.
  intros Hid Hfresh.
  unfold Browser.createIncognitoBrowserContext. run.
  eexists _, _. split; [reflexivity |].
  unfold BrowserContext.close, Browser._disposeContext, assert,
    Browser.browserContexts. run.
  rewrite lookup_total_insert_eq. simpl.
  apply String.eqb_neq in Hid. rewrite Hid. simpl.
  split; [by eexists |].
  intros r. eexists. split; [reflexivity |]. simpl.
  by rewrite JsMap_delete_set_absent.
Qed.

Lemma create_then_close_restores_contexts_witness :
  exists context s2,
    resume (Browser.createIncognitoBrowserContext Browser.new).1
      (Replied (Ok "ctx-1"%string)) Browser.new
      = Some (Settled (Ok context), s2) /\
    (exists k,
       (BrowserContext.close context s2).1
         = AwaitSend (Browser_deleteContext (Some "ctx-1"%string)) k) /\
    forall r,
      exists s3,
        resume (BrowserContext.close context s2).1 (Replied (Ok r))
          (BrowserContext.close context s2).2
          = Some (Settled (Ok tt), s3) /\
        _contexts s3 = _contexts Browser.new /\
        (Browser.browserContexts s3).1
          = (Browser.browserContexts Browser.new).1.
Proof.
  apply (create_then_close_restores_contexts "ctx-1" Browser.new Browser.new).
  - discriminate.
  - reflexivity.
Defined.

(** X3.  [browserContexts()] lists the default context first and then the
    created contexts in the order of their creation.  A context created
    under a new id comes last.  A context created under an id that is
    already registered takes the place of the context registered under that
    id, which is not listed any more at that place. *)
Theorem browserContexts_after_create (id : string) (s0 s : State) :
  exists context s',
    resume (Browser.createIncognitoBrowserContext s0).1 (Replied (Ok id)) s
      = Some (Settled (Ok context), s') /\
    (exists rest, (Browser.browserContexts s').1
                    = Ok (_defaultContext s :: rest)) /\
    (JsMap.get id (_contexts s) = None ->
     forall listed,
       (Browser.browserContexts s).1 = Ok listed ->
       (Browser.browserContexts s').1 = Ok (listed ++ [context])) /\
    (forall old,
       JsMap.get id (_contexts s) = Some old ->
       exists before after,
         (Browser.browserContexts s).1
           = Ok (_defaultContext s :: before ++ old :: after) /\
         (Browser.browserContexts s').1
           = Ok (_defaultContext s :: before ++ context :: after)).
Proof.
  unfold Browser.createIncognitoBrowserContext, Browser.browserContexts. run.
  eexists _, _. split; [reflexivity |]. simpl.
  split; [by eexists |]. split.
  - intros Hfresh listed [= <-].
    rewrite (JsMap_set_absent _ _ _ Hfresh).
    unfold JsMap.values. by rewrite List.map_app.
  - intros old Hold.
    destruct (JsMap_set_present id (fresh (dom (contexts_heap s))) old
                (_contexts s) Hold) as (m1 & m2 & Hm & _ & ->).
    exists (JsMap.values m1), (JsMap.values m2).
    rewrite Hm. unfold JsMap.values. by rewrite !List.map_app.
Qed.

Lemma browserContexts_after_create_witness :
  exists context s',
    resume (Browser.createIncognitoBrowserContext Browser.new).1
      (Replied (Ok "ctx-1"%string)) Browser.new
      = Some (Settled (Ok context), s') /\
    (Browser.browserContexts s').1
      = Ok [_defaultContext Browser.new; context].
Proof.
  destruct (browserContexts_after_create "ctx-1" Browser.new Browser.new)
    as (context & s' & Hresume & _ & Hnew & _).
  exists context, s'. split; [exact Hresume |].
  apply (Hnew eq_refl [_defaultContext Browser.new]).
  vm_compute. reflexivity.
Defined.

(** ** Creating and destroying targets *)

(** The state [_onTargetCreated] leaves: the registered target, the two
    emissions in the trace, and promises of waits that listeners may have
    settled. *)
Lemma onTargetCreated_state (Events : EventsTable) (targetInfo : TargetInfo)
    (s : State) :
  let target := fresh (dom (targets_heap s)) in
  exists tp,
    (Browser._onTargetCreated Events targetInfo s).2
      = set_target_promises (fun _ => tp)
          (set_trace
             (fun t => t ++
                [OpEmit OnBrowser (TargetCreated (Events_Browser Events))
                   target;
                 OpEmit (OnContext (owning_context targetInfo s))
                   (TargetCreated (Events_BrowserContext Events)) target])
             (registered targetInfo s)).
Proof.
  intros target. subst target. rewrite onTargetCreated_run. cbn [snd].
  rewrite emit_notify. cbn [snd]. unfold notify.
  match goal with
  | |- context [foldl (fun s l => EventEmitter.check l ?t s) ?s0 ?ls] =>
      destruct (check_listeners_frame t ls s0) as [tp Hfold];
      rewrite Hfold
  end.
  exists tp.
  apply State_eq; simpl; try reflexivity.
  by rewrite <- !app_assoc.
Qed.

(** X4.  A targetDestroyed notification for an id that is not registered
    makes the handler throw the runtime's [TypeError] for the undefined
    target.  By then it has performed the removal, which is void: the only
    change of the state is that entry of the trace.  No closed-callback runs
    and no event is emitted. *)
Theorem onTargetDestroyed_unknown_target (Events : EventsTable)
    (targetId : string) (s : State) :
  JsMap.get targetId (_targets s) = None ->
  let handler := Browser._onTargetDestroyed Events targetId in
  (exists message, (handler s).1 = Err (TypeError message)) /\
  (handler s).2 = set_trace (fun t => t ++ [OpTargetsDelete targetId]) s /\
  performs handler s = [OpTargetsDelete targetId].
Proof.
  intros Hnone handler.
  assert (handler s
          = (Err (TypeError
                    "Cannot read property '_closedCallback' of undefined"),
             set_trace (fun t => t ++ [OpTargetsDelete targetId]) s))
    as Hrun.
  { subst handler. unfold Browser._onTargetDestroyed. run. rewrite Hnone.
    f_equal. apply State_eq; simpl; try reflexivity.
    by apply JsMap_delete_absent. }
  rewrite Hrun. split; [by eexists |]. split; [done |].
  unfold performs. rewrite Hrun. simpl. by rewrite drop_app_length.
Qed.

Lemma onTargetDestroyed_unknown_target_witness :
  (Browser._onTargetDestroyed example_events "B" browser_with_A).2
    = set_trace (fun t => t ++ [OpTargetsDelete "B"]) browser_with_A.
Proof.
  apply (onTargetDestroyed_unknown_target example_events "B" browser_with_A).
  vm_compute. reflexivity.
Defined.

(** X5.  A target created under a new id and then destroyed: the second
    handler succeeds and the registry is as it was before the creation, so
    [targets()] answers as before.  The target object still exists, with its
    closed-callback run; no other target object has changed; and the trace
    shows the seven operations of the two handlers in order. *)
Theorem target_created_then_destroyed (Events : EventsTable)
    (targetInfo : TargetInfo) (s : State) :
  JsMap.get (targetId targetInfo) (_targets s) = None ->
  let target := fresh (dom (targets_heap s)) in
  let owner := owning_context targetInfo s in
  let s1 := (Browser._onTargetCreated Events targetInfo s).2 in
  let destroyed := Browser._onTargetDestroyed Events (targetId targetInfo) s1 in
  destroyed.1 = Ok tt /\
  _targets destroyed.2 = _targets s /\
  (Browser.targets destroyed.2).1 = (Browser.targets s).1 /\
  targets_heap destroyed.2 !! target
    = Some {| _targetInfo := targetInfo; _browserContext := owner;
              _pagePromise := None; _closed := true |} /\
  (forall t, t ≠ target ->
     targets_heap destroyed.2 !! t = targets_heap s !! t) /\
  trace destroyed.2
    = trace s ++
      [OpTargetsSet (targetId targetInfo) target;
       OpEmit OnBrowser (TargetCreated (Events_Browser Events)) target;
       OpEmit (OnContext owner)
         (TargetCreated (Events_BrowserContext Events)) target;
       OpTargetsDelete (targetId targetInfo);
       OpClosedCallback target;
       OpEmit OnBrowser (TargetDestroyed (Events_Browser Events)) target;
       OpEmit (OnContext owner)
         (TargetDestroyed (Events_BrowserContext Events)) target].
Proof.
  intros Hfresh target owner s1 destroyed.
  destruct (onTargetCreated_state Events targetInfo s) as [tp Hs1].
  fold s1 target owner in Hs1.
  assert (JsMap.get (targetId targetInfo) (_targets s1) = Some target)
    as Hget.
  { rewrite Hs1. simpl. apply JsMap_get_set_eq. }
  assert (targets_heap s1 !! target
          = Some {| _targetInfo := targetInfo; _browserContext := owner;
                    _pagePromise := None; _closed := false |}) as Hobj.
  { rewrite Hs1. simpl. apply lookup_insert_eq. }
  destruct (onTargetDestroyed_run Events (targetId targetInfo) target s1
              Hget) as [tp' Hrun]; [by eexists |].
  fold destroyed in Hrun. rewrite Hrun. cbn [fst snd].
  split; [done |].
  assert (_targets s1 = JsMap.set (targetId targetInfo) target (_targets s))
    as Htargets by (by rewrite Hs1).
  assert (targets_heap s1
          = <[target := {| _targetInfo := targetInfo;
                           _browserContext := owner;
                           _pagePromise := None; _closed := false |}]>
              (targets_heap s)) as Hheap by (by rewrite Hs1).
  assert (trace s1
          = trace s ++
            [OpTargetsSet (targetId targetInfo) target;
             OpEmit OnBrowser (TargetCreated (Events_Browser Events)) target;
             OpEmit (OnContext owner)
               (TargetCreated (Events_BrowserContext Events)) target])
    as Htrace.
  { rewrite Hs1. simpl. by rewrite <- app_assoc. }
  split; [| split; [| split; [| split]]].
  - simpl. rewrite Htargets. by apply JsMap_delete_set_absent.
  - unfold Browser.targets. run. rewrite Htargets.
    by rewrite JsMap_delete_set_absent.
  - simpl. by rewrite lookup_alter_eq, Hobj.
  - intros t Ht. simpl. rewrite lookup_alter_ne by done.
    rewrite Hheap. by rewrite lookup_insert_ne.
  - simpl. rewrite Htrace, <- app_assoc. simpl.
    by rewrite (lookup_total_correct _ _ _ Hobj).
Qed.

Lemma target_created_then_destroyed_witness :
  let targetInfo :=
    {| targetId := "B"; browserContextId := None; type := "page" |} in
  let s1 := (Browser._onTargetCreated example_events targetInfo
               browser_with_A).2 in
  _targets (Browser._onTargetDestroyed example_events "B" s1).2
    = _targets browser_with_A.
Proof.
  apply (target_created_then_destroyed example_events
           {| targetId := "B"; browserContextId := None; type := "page" |}
           browser_with_A).
  vm_compute. reflexivity.
Defined.

(** X6.  A targetCreated notification for an id that is already registered
    replaces the registered target by a new one at the same place of the
    registry.  The handler performs only the registration and the two
    emissions: the replaced target object is left as it is, its
    closed-callback does not run and no target-destroyed event is
    emitted. *)
Theorem onTargetCreated_registered_id (Events : EventsTable)
    (targetInfo : TargetInfo) (old : loc) (s : State) :
  JsMap.get (targetId targetInfo) (_targets s) = Some old ->
  is_Some (targets_heap s !! old) ->
  let target := fresh (dom (targets_heap s)) in
  let handler := Browser._onTargetCreated Events targetInfo in
  target ≠ old /\
  (handler s).1 = Ok tt /\
  (exists before after,
     _targets s = before ++ (targetId targetInfo, old) :: after /\
     _targets (handler s).2
       = before ++ (targetId targetInfo, target) :: after) /\
  targets_heap (handler s).2 !! old = targets_heap s !! old /\
  performs handler s
    = [OpTargetsSet (targetId targetInfo) target;
       OpEmit OnBrowser (TargetCreated (Events_Browser Events)) target;
       OpEmit (OnContext (owning_context targetInfo s))
         (TargetCreated (Events_BrowserContext Events)) target].
Proof.
  intros Hold Halloc target handler.
  assert (target ≠ old) as Hne.
  { intros Heq. apply (is_fresh (dom (targets_heap s))).
    fold target. rewrite Heq. by apply elem_of_dom. }
  destruct (onTargetCreated_state Events targetInfo s) as [tp Hs'].
  fold target in Hs'. fold handler in Hs'.
  assert ((handler s).1 = Ok tt) as Hok.
  { subst handler. by rewrite onTargetCreated_run. }
  split; [done |]. split; [done |]. rewrite Hs'. split; [| split].
  - destruct (JsMap_set_present (targetId targetInfo) target old
                (_targets s) Hold) as (m1 & m2 & Hm & _ & Hset).
    exists m1, m2. split; [done |]. simpl. by fold target.
  - simpl. fold target. by rewrite lookup_insert_ne.
  - unfold performs. rewrite Hs'. simpl. fold target.
    by rewrite <- app_assoc, drop_app_length.
Qed.

Lemma onTargetCreated_registered_id_witness :
  let targetInfo :=
    {| targetId := "A"; browserContextId := None; type := "page" |} in
  performs (Browser._onTargetCreated example_events targetInfo)
    browser_with_A
    = [OpTargetsSet "A" 1%nat;
       OpEmit OnBrowser "targetcreated" 1%nat;
       OpEmit (OnContext 0%nat) "targetcreated" 1%nat].
Proof.
  apply (onTargetCreated_registered_id example_events
           {| targetId := "A"; browserContextId := None; type := "page" |}
           0%nat browser_with_A).
  - vm_compute. reflexivity.
  - vm_compute. eauto.
Defined.

(** ** Failures of the provisional commit *)

(** X7.  [_onProvisionalTargetCommitted] fails in three ways.  An old id
    that is not registered rejects the call with the runtime's [TypeError]
    and changes nothing.  A page promise that is rejected rejects the call
    with the same error, and nothing is transplanted.  A new id that is not
    registered when the page arrives rejects the call with a [TypeError],
    but only after the page was told to swap to the undefined target: that
    call is in the trace, while the registry and the targets are
    unchanged. *)
Theorem onProvisionalTargetCommitted_failures
    (oldTargetId newTargetId : string) (s : State) :
  let call :=
    Browser._onProvisionalTargetCommitted oldTargetId newTargetId s in
  (JsMap.get oldTargetId (_targets s) = None ->
   exists message, call = (Settled (Err (TypeError message)), s)) /\
  (forall oldTarget p,
     JsMap.get oldTargetId (_targets s) = Some oldTarget ->
     _pagePromise (targets_heap s !!! oldTarget) = Some p ->
     (forall e s',
        page_promises s' !! p = Some (Rejected e) ->
        resume call.1 PromiseSettled s' = Some (Settled (Err e), s')) /\
     (forall page s',
        page_promises s' !! p = Some (Fulfilled page) ->
        JsMap.get newTargetId (_targets s') = None ->
        exists message s'',
          resume call.1 PromiseSettled s'
            = Some (Settled (Err (TypeError message)), s'') /\
          trace s''
            = trace s' ++ [OpSwapTarget page (session newTargetId) None] /\
          _targets s'' = _targets s' /\
          targets_heap s'' = targets_heap s')).
Proof.
  intros call. split.
  - intros Hnone. subst call.
    unfold Browser._onProvisionalTargetCommitted. run. rewrite Hnone.
    by eexists.
  - intros oldTarget p Hold Hp. subst call.
    unfold Browser._onProvisionalTargetCommitted, Target.get_pagePromise,
      Target.set_pagePromise, Page._swapTargetOnNavigation.
    run. rewrite Hold. simpl. rewrite Hp. simpl. split.
    + by intros e s' ->.
    + intros page s' -> Hnew. simpl. run. rewrite Hnew.
      by eexists _, _.
Qed.

Lemma onProvisionalTargetCommitted_failures_witness :
  exists message s'',
    resume (Browser._onProvisionalTargetCommitted "A" "Z" browser_with_A_B).1
      PromiseSettled browser_with_A_B
      = Some (Settled (Err (TypeError message)), s'') /\
    trace s''
      = trace browser_with_A_B ++ [OpSwapTarget 0%nat (session "Z") None].
Proof.
  destruct (onProvisionalTargetCommitted_failures "A" "Z" browser_with_A_B)
    as [_ Hregistered].
  destruct (Hregistered 0%nat 0%nat) as [_ Hmissing].
  { vm_compute. reflexivity. }
  { vm_compute. reflexivity. }
  destruct (Hmissing 0%nat browser_with_A_B)
    as (message & s'' & Hresume & Htrace & _).
  { vm_compute. reflexivity. }
  { vm_compute. reflexivity. }
  exists message, s''. split; [exact Hresume | exact Htrace].
Defined.

(** ** Creating a page *)

(** X8.  [_createPageInContext] sends the create-page command for the given
    context and changes nothing until the reply.  A failed command rejects
    the call with that error and leaves the state untouched.  For a reply
    whose target is registered the call asks that target for its page: an
    exception of [page()] rejects the call, a null answer resolves it to
    null, and a promise is awaited, its page or its error being the outcome
    of the call. *)
Theorem createPageInContext_outcomes
    (browserContextId : option string) (s : State) :
  let call := Browser._createPageInContext browserContextId s in
  call.2 = set_trace (fun t => t ++ [OpSend (Browser_createPage
                                               browserContextId)]) s /\
  (forall e s',
     resume call.1 (Replied (Err e)) s' = Some (Settled (Err e), s')) /\
  (forall targetId target s',
     JsMap.get targetId (_targets s') = Some target ->
     match Target.page target s' with
     | (Err e, s'') =>
         resume call.1 (Replied (Ok targetId)) s'
           = Some (Settled (Err e), s'')
     | (Ok None, s'') =>
         resume call.1 (Replied (Ok targetId)) s'
           = Some (Settled (Ok None), s'')
     | (Ok (Some p), s'') =>
         exists suspended,
           resume call.1 (Replied (Ok targetId)) s' = Some (suspended, s'') /\
           (forall page s3,
              page_promises s3 !! p = Some (Fulfilled page) ->
              resume suspended PromiseSettled s3
                = Some (Settled (Ok (Some page)), s3)) /\
           (forall e s3,
              page_promises s3 !! p = Some (Rejected e) ->
              resume suspended PromiseSettled s3
                = Some (Settled (Err e), s3)) /\
           (forall s3,
              page_promises s3 !! p = Some Pending ->
              resume suspended PromiseSettled s3 = None)
     end).
Proof.
  unfold Browser._createPageInContext. run.
  split; [done |]. split; [done |].
  intros targetId target s' ->.
  destruct (Target.page target s') as [[[p|]|e] s'']; [| done | done].
  eexists. split; [reflexivity |]. simpl.
  split; [by intros ? ? -> | split; [by intros ? ? -> | by intros ? ->]].
Qed.

Lemma createPageInContext_outcomes_witness :
  exists suspended,
    resume (Browser._createPageInContext None browser_with_A_B).1
      (Replied (Ok "A"%string)) browser_with_A_B
      = Some (suspended, browser_with_A_B) /\
    resume suspended PromiseSettled browser_with_A_B
      = Some (Settled (Ok (Some 0%nat)), browser_with_A_B).
Proof.
  destruct (createPageInContext_outcomes None browser_with_A_B)
    as (_ & _ & Hregistered).
  specialize (Hregistered "A"%string 0%nat browser_with_A_B).
  assert (Target.page 0%nat browser_with_A_B
          = (Ok (Some 0%nat), browser_with_A_B)) as Hpage.
  { apply Target_page_cached. vm_compute. reflexivity. }
  rewrite Hpage in Hregistered.
  destruct Hregistered as (suspended & Hreply & Hfulfilled & _).
  { vm_compute. reflexivity. }
  exists suspended. split; [exact Hreply |].
  apply Hfulfilled. vm_compute. reflexivity.
Defined.

(** ** The view of a context *)

Lemma BrowserContext_targets_run (this : loc) (s : State) :
  BrowserContext.targets this s
    = (Ok (List.filter
             (fun target =>
                Nat.eqb (_browserContext (targets_heap s !!! target)) this)
             (JsMap.values (_targets s))),
       s).
Proof. reflexivity. Qed.

(** X9.  When a target is created under a new id, [targets()] of the
    context that owns it lists it last, after the targets the context had,
    and [targets()] of every other context answers as before. *)
Theorem BrowserContext_targets_after_create (Events : EventsTable)
    (targetInfo : TargetInfo) (this : loc) (s : State) :
  registry_allocated s ->
  JsMap.get (targetId targetInfo) (_targets s) = None ->
  let target := fresh (dom (targets_heap s)) in
  let s' := (Browser._onTargetCreated Events targetInfo s).2 in
  exists listed,
    (BrowserContext.targets this s).1 = Ok listed /\
    (BrowserContext.targets this s').1
      = Ok (listed ++
            if decide (this = owning_context targetInfo s)
            then [target] else []).
Proof.
  intros Halloc Hfresh target s'.
  destruct (onTargetCreated_state Events targetInfo s) as [tp Hs'].
  fold target s' in Hs'.
  rewrite !BrowserContext_targets_run. cbn [fst].
  eexists. split; [reflexivity |]. f_equal.
  assert (_targets s'
          = _targets s ++ [(targetId targetInfo, target)]) as ->.
  { rewrite Hs'. simpl. fold target. by apply JsMap_set_absent. }
  assert (targets_heap s'
          = <[target := {| _targetInfo := targetInfo;
                           _browserContext := owning_context targetInfo s;
                           _pagePromise := None; _closed := false |}]>
              (targets_heap s)) as -> by (by rewrite Hs').
  unfold JsMap.values. rewrite List.map_app, List.filter_app. simpl.
  rewrite lookup_total_insert_eq. simpl. f_equal.
  - apply List.filter_ext_in. intros t Ht.
    rewrite lookup_total_insert_ne; [done |].
    intros <-. apply (is_fresh (dom (targets_heap s))).
    apply elem_of_dom. by apply Halloc.
  - case_decide as Hthis.
    + subst this. by rewrite Nat.eqb_refl.
    + by assert (Nat.eqb (owning_context targetInfo s) this = false) as ->
        by (apply Nat.eqb_neq; congruence).
Qed.

Lemma registry_allocated_browser_with_A : registry_allocated browser_with_A.
Proof.
  intros t Ht. vm_compute in Ht. destruct Ht as [<- | []].
  vm_compute. eauto.
Qed.

Lemma BrowserContext_targets_after_create_witness :
  let targetInfo :=
    {| targetId := "B"; browserContextId := None; type := "page" |} in
  let s' := (Browser._onTargetCreated example_events targetInfo
               browser_with_A).2 in
  (BrowserContext.targets 0%nat s').1 = Ok [0%nat; 1%nat].
Proof.
  intros targetInfo s'.
  destruct (BrowserContext_targets_after_create example_events targetInfo
              0%nat browser_with_A registry_allocated_browser_with_A)
    as (listed & Hbefore & Hafter).
  { vm_compute. reflexivity. }
  fold s' in Hafter. rewrite Hafter.
  vm_compute in Hbefore. injection Hbefore as <-.
  vm_compute. reflexivity.
Defined.

(** X10.  [waitForTarget] of a context looks at its own targets only.  If
    the call settles at once with a target, that target is registered,
    belongs to the context and satisfies the predicate.  If no target of the
    context satisfies the predicate, the call suspends, whatever targets of
    other contexts do.  And while it waits, the emission of a target that
    belongs to another context leaves its promise pending. *)
Theorem BrowserContext_waitForTarget_own_targets (Events : EventsTable)
    (this : loc) (predicate : loc -> TargetObj -> bool)
    (options : option Options) (s : State) :
  let call := BrowserContext.waitForTarget Events this predicate options s in
  let p := fresh (dom (target_promises s)) in
  (forall r,
     call.1 = Settled r ->
     exists target,
       r = Ok target /\
       In target (JsMap.values (_targets s)) /\
       _browserContext (targets_heap s !!! target) = this /\
       predicate target (targets_heap s !!! target) = true) /\
  ((forall target,
      In target (JsMap.values (_targets s)) ->
      _browserContext (targets_heap s !!! target) = this ->
      predicate target (targets_heap s !!! target) = false) ->
   exists k,
     call.1 = AwaitTarget p k \/
     exists timeout deadline,
       call.1 = AwaitRace p "target" timeout deadline k) /\
  (forall event target s',
     (forall l, In l (EventEmitter.listeners event s') ->
        check_resolve l = p ->
        check_predicate l
          = fun target t =>
              Nat.eqb (_browserContext t) this && predicate target t) ->
     target_promises s' !! p = Some Pending ->
     _browserContext (targets_heap s' !!! target) ≠ this ->
     target_promises (EventEmitter.emit event target s').2 !! p
       = Some Pending).
Proof.
  intros call p.
  set (own := fun (target : loc) (t : TargetObj) =>
                Nat.eqb (_browserContext t) this && predicate target t).
  destruct (List.find (fun t => own t (targets_heap s !!! t))
              (JsMap.values (_targets s))) as [existing|] eqn:Hfind.
  - assert (call = (Settled (Ok existing), s)) as Hcall
      by (by apply waitForTarget_existing).
    apply List.find_some in Hfind as [Hin Hown].
    apply andb_prop in Hown as [Hctx Hpred]. apply Nat.eqb_eq in Hctx.
    split; [| split].
    + rewrite Hcall. intros r [= <-]. by exists existing.
    + intros Hnone. rewrite (Hnone existing Hin Hctx) in Hpred. done.
    + intros event target s' Hclosure Hp Hother.
      rewrite emit_notify. cbn [snd]. apply notify_no_match; [| done].
      intros l Hl Hid. rewrite (Hclosure l Hl Hid).
      change (targets_heap (set_trace ?f ?x)) with (targets_heap x).
      unfold own. apply andb_false_intro1. by apply Nat.eqb_neq.
  - destruct (waitForTarget_body Events own options s Hfind)
      as (k & Hcall & _).
    fold p in Hcall.
    assert (exists k,
      call.1 = AwaitTarget p k \/
      exists timeout deadline,
        call.1 = AwaitRace p "target" timeout deadline k) as Hsuspended.
    { exists k. subst call. unfold BrowserContext.waitForTarget.
      fold own. rewrite Hcall. cbn [fst]. unfold suspension.
      destruct (Z.eqb _ 0); [by left | right; by eexists _, _]. }
    split; [| split; [done |]].
    + intros r Hr. destruct Hsuspended as [k' [Hk' | (? & ? & Hk')]];
        rewrite Hk' in Hr; discriminate.
    + intros event target s' Hclosure Hp Hother.
      rewrite emit_notify. cbn [snd]. apply notify_no_match; [| done].
      intros l Hl Hid. rewrite (Hclosure l Hl Hid).
      change (targets_heap (set_trace ?f ?x)) with (targets_heap x).
      unfold own. apply andb_false_intro1. by apply Nat.eqb_neq.
Qed.

Lemma BrowserContext_waitForTarget_own_targets_witness :
  exists target,
    (BrowserContext.waitForTarget example_events 0%nat has_page None
       browser_with_A_B).1 = Settled (Ok target) /\
    _browserContext (targets_heap browser_with_A_B !!! target) = 0%nat.
Proof.
  destruct (BrowserContext_waitForTarget_own_targets example_events 0%nat
              has_page None browser_with_A_B) as [Hsettled _].
  destruct (Hsettled (Ok 0%nat)) as (target & Hr & _ & Hown & _).
  { vm_compute. reflexivity. }
  exists target. split; [| exact Hown].
  injection Hr as <-. vm_compute. reflexivity.
Defined.

(** X11.  [close()] asserts exactly what [isIncognito()] answers: when
    [isIncognito()] is false the call fails with the precondition error and
    touches nothing, and when it is true the call sends the delete command
    for the id of the context. *)
Theorem isIncognito_guards_close (this : loc) (s : State) :
  ((BrowserContext.isIncognito this s).1 = Ok false <->
   BrowserContext.close this s
     = (Settled
          (Err (AssertionError "Non-incognito profiles cannot be closed!")),
        s)) /\
  ((BrowserContext.isIncognito this s).1 = Ok true <->
   exists k,
     BrowserContext.close this s
       = (AwaitSend (Browser_deleteContext (_id (contexts_heap s !!! this)))
            k,
          set_trace
            (fun t => t ++
               [OpSend (Browser_deleteContext
                          (_id (contexts_heap s !!! this)))]) s)).
Proof.
  unfold BrowserContext.isIncognito, BrowserContext.close,
    Browser._disposeContext, assert.
  run. destruct (truthy (_id (contexts_heap s !!! this))); simpl.
  - split; split; [done | done | by eexists | done].
  - split; split; [done | done | done | by intros [k [=]]].
Qed.

(** ** Invariants *)

Lemma onTargetChanged_state (Events : EventsTable) (target : loc)
    (s : State) :
  exists tp,
    (Browser._onTargetChanged Events target s).2
      = set_target_promises (fun _ => tp)
          (set_trace
             (fun t => t ++
                [OpEmit OnBrowser (TargetChanged (Events_BrowserContext Events))
                   target;
                 OpEmit
                   (OnContext (_browserContext (targets_heap s !!! target)))
                   (TargetChanged (Events_BrowserContext Events)) target])
             s).
Proof.
  rewrite onTargetChanged_run. cbn [snd]. rewrite emit_notify. cbn [snd].
  unfold notify.
  match goal with
  | |- context [foldl (fun s l => EventEmitter.check l ?t s) ?s0 ?ls] =>
      destruct (check_listeners_frame t ls s0) as [tp Hfold];
      rewrite Hfold
  end.
  exists tp. apply State_eq; simpl; try reflexivity.
  by rewrite <- !app_assoc.
Qed.

(** The registry and the target objects after [_onTargetDestroyed], on
    both of its paths. *)
Lemma onTargetDestroyed_state (Events : EventsTable) (targetId : string)
    (s : State) :
  let s' := (Browser._onTargetDestroyed Events targetId s).2 in
  _targets s' = JsMap.delete targetId (_targets s) /\
  _contexts s' = _contexts s /\
  contexts_heap s' = contexts_heap s /\
  page_promises s' = page_promises s /\
  (targets_heap s' = targets_heap s \/
   exists target,
     targets_heap s' = alter Target.with_closed target (targets_heap s)).
Proof.
  unfold Browser._onTargetDestroyed, Target._closedCallback,
    Target.browserContext, EventEmitter.emit_on_context, log.
  unfold bind, gets, modify, throw. cbn [fst snd].
  destruct (JsMap.get targetId (_targets s)) as [target|].
  - rewrite emit_notify. cbn [fst snd]. unfold notify.
    match goal with
    | |- context [foldl (fun s l => EventEmitter.check l ?t s) ?s0 ?ls] =>
        destruct (check_listeners_frame t ls s0) as [tp Hfold];
        rewrite Hfold
    end.
    simpl. repeat split; try done. right. by exists target.
  - simpl. repeat split; try done. by left.
Qed.

Lemma alter_keeps_allocated (f : TargetObj -> TargetObj) (target t : loc)
    (h : gmap loc TargetObj) :
  is_Some (h !! t) -> is_Some (alter f target h !! t).
Proof.
  intros [obj Hobj]. destruct (decide (target = t)) as [-> | Hne].
  - rewrite lookup_alter_eq, Hobj. by eexists.
  - rewrite lookup_alter_ne by done. by eexists.
Qed.

(** The rest of [_onProvisionalTargetCommitted] after its [await], for any
    call of the handler: it keeps the registry, and it changes no target
    object except that it writes a page promise of a registered target. *)
Lemma onProvisionalTargetCommitted_resumed
    (oldTargetId newTargetId : string) (s0 s : State)
    (out : Async unit * State) :
  resume (Browser._onProvisionalTargetCommitted oldTargetId newTargetId s0).1
    PromiseSettled s = Some out ->
  _targets out.2 = _targets s /\
  _contexts out.2 = _contexts s /\
  contexts_heap out.2 = contexts_heap s /\
  page_promises out.2 = page_promises s /\
  (targets_heap out.2 = targets_heap s \/
   exists oldTarget newTarget,
     JsMap.get newTargetId (_targets s) = Some newTarget /\
     targets_heap out.2
       = alter (Target.with_pagePromise
                  (_pagePromise (targets_heap s !!! oldTarget)))
           newTarget (targets_heap s)).
Proof.
  unfold Browser._onProvisionalTargetCommitted, Target.get_pagePromise,
    Target.set_pagePromise, Page._swapTargetOnNavigation.
  run.
  destruct (JsMap.get oldTargetId (_targets s0)) as [oldTarget|];
    [| discriminate].
  simpl.
  destruct (_pagePromise (targets_heap s0 !!! oldTarget)) as [p|];
    [| discriminate].
  simpl.
  destruct (page_promises s !! p) as [[|page|e]|]; simpl;
    try discriminate.
  - run.
    destruct (JsMap.get newTargetId (_targets s)) as [newTarget|] eqn:Hnew;
      intros [= <-]; simpl.
    + repeat split; try done. right. by exists oldTarget, newTarget.
    + repeat split; try done. by left.
  - intros [= <-]. simpl. repeat split; try done. by left.
Qed.

Lemma Target_page_state (target : loc) (s : State) :
  let s' := (Target.page target s).2 in
  _targets s' = _targets s /\
  _contexts s' = _contexts s /\
  contexts_heap s' = contexts_heap s /\
  (s' = s \/
   let p := fresh (dom (page_promises s)) in
   _pagePromise (targets_heap s !!! target) = None /\
   (Target.page target s).1 = Ok (Some p) /\
   page_promises s' = <[p := Pending]> (page_promises s) /\
   targets_heap s'
     = alter (Target.with_pagePromise (Some p)) target (targets_heap s)).
Proof.
  unfold Target.page, Target.set_pagePromise. run.
  destruct (String.eqb _ "page"); simpl.
  - destruct (_pagePromise (targets_heap s !!! target)) as [p|] eqn:Hp;
      simpl.
    + repeat split; try done. by left.
    + repeat split; try done. by right.
  - repeat split; try done. by left.
Qed.

(** X12.  Every registered target is an allocated object: this holds for a
    new [Browser] and is kept by the three notification handlers, by the
    resumed commit handler and by [page()] of a target.  So the handlers
    never meet a registered id without its target object. *)
Theorem registry_allocated_kept (Events : EventsTable) (s : State) :
  registry_allocated Browser.new /\
  (registry_allocated s ->
   (forall targetInfo,
      registry_allocated (Browser._onTargetCreated Events targetInfo s).2) /\
   (forall targetId,
      registry_allocated (Browser._onTargetDestroyed Events targetId s).2) /\
   (forall target,
      registry_allocated (Browser._onTargetChanged Events target s).2) /\
   (forall target, registry_allocated (Target.page target s).2) /\
   (forall oldTargetId newTargetId s0 out,
      resume
        (Browser._onProvisionalTargetCommitted oldTargetId newTargetId s0).1
        PromiseSettled s = Some out ->
      registry_allocated out.2)).
Proof.
  split; [intros t [] |].
  intros Halloc. split; [| split; [| split; [| split]]].
  - intros targetInfo t.
    destruct (onTargetCreated_state Events targetInfo s) as [tp ->].
    simpl. intros [-> | Ht]%JsMap_values_set_In.
    + rewrite lookup_insert_eq. by eexists.
    + destruct (Halloc t Ht) as [obj Hobj].
      destruct (decide (fresh (dom (targets_heap s)) = t)) as [-> | Hne].
      * rewrite lookup_insert_eq. by eexists.
      * rewrite lookup_insert_ne by done. by eexists.
  - intros targetId t.
    destruct (onTargetDestroyed_state Events targetId s)
      as (-> & _ & _ & _ & [-> | [target ->]]);
      intros Ht%JsMap_values_delete_In.
    + by apply Halloc.
    + by apply alter_keeps_allocated, Halloc.
  - intros target t.
    destruct (onTargetChanged_state Events target s) as [tp ->].
    simpl. apply Halloc.
  - intros target t.
    destruct (Target_page_state target s)
      as (-> & _ & _ & [-> | (_ & _ & _ & ->)]); intros Ht.
    + by apply Halloc.
    + by apply alter_keeps_allocated, Halloc.
  - intros oldTargetId newTargetId s0 out Hout t.
    destruct (onProvisionalTargetCommitted_resumed _ _ _ _ _ Hout)
      as (-> & _ & _ & _ & [-> | (oldTarget & newTarget & _ & ->)]);
      intros Ht.
    + by apply Halloc.
    + by apply alter_keeps_allocated, Halloc.
Qed.

Lemma registry_allocated_kept_witness :
  registry_allocated
    (Browser._onTargetDestroyed example_events "A" browser_with_A).2.
Proof.
  destruct (registry_allocated_kept example_events browser_with_A)
    as [_ Hkept].
  destruct (Hkept registry_allocated_browser_with_A)
    as (_ & Hdestroyed & _).
  exact (Hdestroyed "A"%string).
Defined.

(** A page promise stays on the target that holds it.  The notification
    handlers and [page()] keep it, and a resumed commit handler writes only
    onto its own new target: between the [await] of a commit handler and
    its resumption the old target loses its promise only to another commit
    that names it as the new target. *)
Lemma pagePromise_kept (Events : EventsTable) (t : loc) (p : nat)
    (s : State) :
  is_Some (targets_heap s !! t) ->
  _pagePromise (targets_heap s !!! t) = Some p ->
  (forall targetInfo,
     _pagePromise
       (targets_heap (Browser._onTargetCreated Events targetInfo s).2 !!! t)
       = Some p) /\
  (forall targetId,
     _pagePromise
       (targets_heap (Browser._onTargetDestroyed Events targetId s).2 !!! t)
       = Some p) /\
  (forall target,
     _pagePromise
       (targets_heap (Browser._onTargetChanged Events target s).2 !!! t)
       = Some p) /\
  (forall target,
     _pagePromise (targets_heap (Target.page target s).2 !!! t) = Some p) /\
  (forall oldTargetId newTargetId s0 out,
     resume
       (Browser._onProvisionalTargetCommitted oldTargetId newTargetId s0).1
       PromiseSettled s = Some out ->
     JsMap.get newTargetId (_targets s) ≠ Some t ->
     _pagePromise (targets_heap out.2 !!! t) = Some p).
Proof.
  intros [obj Hobj] Hp.
  assert (_pagePromise obj = Some p) as Hobjp
    by (by rewrite lookup_total_alt, Hobj in Hp).
  split; [| split; [| split; [| split]]].
  - intros targetInfo.
    destruct (onTargetCreated_state Events targetInfo s) as [tp ->].
    simpl. rewrite lookup_total_insert_ne; [done |].
    intros Heq. apply (is_fresh (dom (targets_heap s))).
    rewrite Heq. apply elem_of_dom. by eexists.
  - intros targetId.
    destruct (onTargetDestroyed_state Events targetId s)
      as (_ & _ & _ & _ & [-> | [target ->]]); [done |].
    destruct (decide (target = t)) as [-> | Hne].
    + by rewrite lookup_total_alt, lookup_alter_eq, Hobj.
    + by rewrite lookup_total_alter_ne.
  - intros target.
    by destruct (onTargetChanged_state Events target s) as [tp ->].
  - intros target.
    destruct (Target_page_state target s)
      as (_ & _ & _ & [-> | (Hnone & _ & _ & ->)]); [done |].
    destruct (decide (target = t)) as [-> | Hne]; [congruence |].
    by rewrite lookup_total_alter_ne.
  - intros oldTargetId newTargetId s0 out Hout Hnew.
    destruct (onProvisionalTargetCommitted_resumed oldTargetId newTargetId
                s0 s out Hout)
      as (_ & _ & _ & _ & [-> | (oldTarget & newTarget & Hget & ->)]);
      [done |].
    rewrite lookup_total_alter_ne; [done |]. congruence.
Qed.

Lemma JsMap_get_entry {V} (k : string) (v : V) (m : JsMap.t V) :
  JsMap.get k m = Some v -> In (k, v) m.
Proof.
  unfold JsMap.get.
  induction m as [|[k' v'] m IH]; simpl; [done |].
  destruct (String.eqb k' k) eqn:E; simpl.
  - apply String.eqb_eq in E. subst k'. intros [= ->]. by left.
  - intros Hm. right. by apply IH.
Qed.

Lemma JsMap_set_entry {V} (k k' : string) (v v' : V) (m : JsMap.t V) :
  In (k', v') (JsMap.set k v m) -> (k' = k /\ v' = v) \/ In (k', v') m.
Proof.
  induction m as [|[k0 v0] m IH]; simpl.
  - intros [[= -> ->] | []]. by left.
  - destruct (String.eqb k0 k); simpl.
    + intros [[= -> ->] | Hm]; [by left | right; by right].
    + intros [[= -> ->] | Hm]; [right; by left |].
      destruct (IH Hm) as [? | ?]; [by left | right; by right].
Qed.

Lemma JsMap_delete_entry {V} (k : string) (kv : string * V)
    (m : JsMap.t V) :
  In kv (JsMap.delete k m) -> In kv m.
Proof. unfold JsMap.delete. by intros [? _]%List.filter_In. Qed.

Lemma contexts_consistent_frame (s s' : State) :
  _defaultContext s' = _defaultContext s ->
  _contexts s' = _contexts s ->
  contexts_heap s' = contexts_heap s ->
  contexts_consistent s -> contexts_consistent s'.
Proof. unfold contexts_consistent. by intros -> -> ->. Qed.

(** X13.  The default context has no id and every context registered under
    an id carries that id: this holds for a new [Browser] and is kept by
    [createIncognitoBrowserContext] and by [_disposeContext], whatever the
    command replies, and by the notification handlers [_onTargetCreated],
    [_onTargetDestroyed] and [_onTargetChanged]. *)
Theorem contexts_consistent_kept (Events : EventsTable) (s : State) :
  contexts_consistent Browser.new /\
  (contexts_consistent s ->
   (forall s0 r out,
      resume (Browser.createIncognitoBrowserContext s0).1 (Replied r) s
        = Some out ->
      contexts_consistent out.2) /\
   (forall browserContextId s0 r out,
      resume (Browser._disposeContext browserContextId s0).1 (Replied r) s
        = Some out ->
      contexts_consistent out.2) /\
   contexts_consistent (Browser.createIncognitoBrowserContext s).2 /\
   (forall browserContextId,
      contexts_consistent (Browser._disposeContext browserContextId s).2) /\
   (forall targetInfo,
      contexts_consistent (Browser._onTargetCreated Events targetInfo s).2) /\
   (forall targetId,
      contexts_consistent (Browser._onTargetDestroyed Events targetId s).2) /\
   (forall target,
      contexts_consistent (Browser._onTargetChanged Events target s).2)).
Proof.
  split.
  { split; [done |]. intros k context []. }
  intros [Hdefault Hregistered].
  split; [| split; [| split; [| split; [| split; [| split]]]]].
  - intros s0 [id | e] out;
      unfold Browser.createIncognitoBrowserContext; run;
      intros [= <-]; simpl; [| done].
    assert (forall context,
      is_Some (contexts_heap s !! context) ->
      fresh (dom (contexts_heap s)) ≠ context) as Hfresh.
    { intros context Hsome Heq.
      apply (is_fresh (dom (contexts_heap s))). rewrite Heq.
      by apply elem_of_dom. }
    split; simpl.
    + rewrite lookup_insert_ne; [done |]. apply Hfresh. by eexists.
    + intros k context [[-> ->] | Hin]%JsMap_set_entry.
      * apply lookup_insert_eq.
      * rewrite lookup_insert_ne; [by apply Hregistered |].
        apply Hfresh. rewrite (Hregistered _ _ Hin). by eexists.
  - intros browserContextId s0 [r | e] out;
      unfold Browser._disposeContext; run;
      intros [= <-]; simpl; [| done].
    split; simpl; [done |].
    intros k context Hk. apply Hregistered.
    destruct browserContextId as [k0|]; [| done].
    by apply JsMap_delete_entry in Hk.
  - done.
  - done.
  - intros targetInfo.
    destruct (onTargetCreated_state Events targetInfo s) as [tp ->].
    done.
  - intros targetId.
    unfold Browser._onTargetDestroyed, Target._closedCallback,
      Target.browserContext, EventEmitter.emit_on_context, log.
    unfold bind, gets, modify, throw. cbn [fst snd].
    destruct (JsMap.get targetId (_targets s)) as [target|]; [| done].
    rewrite emit_notify. cbn [fst snd]. unfold notify.
    match goal with
    | |- context [foldl (fun s l => EventEmitter.check l ?t s) ?s0 ?ls] =>
        destruct (check_listeners_frame t ls s0) as [tp Hfold];
        rewrite Hfold
    end.
    done.
  - intros target.
    destruct (onTargetChanged_state Events target s) as [tp ->].
    done.
Qed.

Lemma contexts_consistent_kept_witness :
  contexts_consistent
    (Browser._onTargetCreated example_events
       {| targetId := "A"; browserContextId := None; type := "page" |}
       Browser.new).2.
Proof.
  destruct (contexts_consistent_kept example_events Browser.new)
    as [Hnew Hkept].
  destruct (Hkept Hnew) as (_ & _ & _ & _ & Hcreated & _).
  apply Hcreated.
Defined.

(** X14.  In a browser whose contexts are consistent, the default context
    is not listed among the created ones, is not incognito and cannot be
    closed; and a context registered under a non-empty id is incognito, and
    closing it sends the delete command for that id and, on the reply,
    removes that id and no other from the contexts map. *)
Theorem consistent_contexts_close (s : State) :
  contexts_consistent s ->
  ~ In (_defaultContext s) (JsMap.values (_contexts s)) /\
  (BrowserContext.isIncognito (_defaultContext s) s).1 = Ok false /\
  BrowserContext.close (_defaultContext s) s
    = (Settled
         (Err (AssertionError "Non-incognito profiles cannot be closed!")),
       s) /\
  (forall k context,
     k ≠ EmptyString ->
     JsMap.get k (_contexts s) = Some context ->
     (BrowserContext.isIncognito context s).1 = Ok true /\
     (exists continuation,
        (BrowserContext.close context s).1
          = AwaitSend (Browser_deleteContext (Some k)) continuation) /\
     forall r,
       exists s',
         resume (BrowserContext.close context s).1 (Replied (Ok r))
           (BrowserContext.close context s).2
           = Some (Settled (Ok tt), s') /\
         JsMap.get k (_contexts s') = None /\
         (forall k', k' ≠ k ->
            JsMap.get k' (_contexts s') = JsMap.get k' (_contexts s))).
Proof.
  intros [Hdefault Hregistered].
  assert (_id (contexts_heap s !!! _defaultContext s) = None) as Hid.
  { by rewrite (lookup_total_correct _ _ _ Hdefault). }
  split; [| split; [| split]].
  - intros Hin. unfold JsMap.values in Hin.
    apply List.in_map_iff in Hin as ([k c] & Hc & Hin). simpl in Hc.
    subst c. rewrite (Hregistered _ _ Hin) in Hdefault. discriminate.
  - unfold BrowserContext.isIncognito. run. by rewrite Hid.
  - unfold BrowserContext.close, assert. run. by rewrite Hid.
  - intros k context Hk Hget.
    assert (_id (contexts_heap s !!! context) = Some k) as Hidk.
    { apply JsMap_get_entry in Hget.
      by rewrite (lookup_total_correct _ _ _ (Hregistered _ _ Hget)). }
    apply String.eqb_neq in Hk.
    unfold BrowserContext.isIncognito, BrowserContext.close,
      Browser._disposeContext, assert.
    run. rewrite Hidk. simpl. rewrite Hk. simpl.
    split; [done |]. split; [by eexists |].
    intros r. eexists. split; [reflexivity |]. simpl.
    split; [apply JsMap_get_delete_eq |].
    intros k' Hk'. by apply JsMap_get_delete_ne.
Qed.

Lemma consistent_contexts_close_witness :
  BrowserContext.close (_defaultContext browser_with_context)
    browser_with_context
    = (Settled
         (Err (AssertionError "Non-incognito profiles cannot be closed!")),
       browser_with_context).
Proof.
  assert (contexts_consistent browser_with_context) as Hconsistent.
  { split; [vm_compute; reflexivity |].
    intros k context Hin. vm_compute in Hin.
    destruct Hin as [[= <- <-] | []]. vm_compute. reflexivity. }
  destruct (consistent_contexts_close browser_with_context Hconsistent)
    as (_ & _ & Hclose & _).
  exact Hclose.
Defined.

(** ** [pages()] *)

Lemma page_requests_only_refl (s : State) : page_requests_only s s.
Proof. by repeat split. Qed.

Lemma page_requests_only_trans (s1 s2 s3 : State) :
  page_requests_only s1 s2 -> page_requests_only s2 s3 ->
  page_requests_only s1 s3.
Proof.
  intros (Hd & Ht & Hc & Hh & Hi & Ho & Hp)
         (Hd' & Ht' & Hc' & Hh' & Hi' & Ho' & Hp').
  split; [congruence |]. split; [congruence |]. split; [congruence |].
  split; [congruence |].
  split; [intros t; rewrite Hi'; apply Hi |].
  split; [intros t; rewrite Ho'; apply Ho |].
  intros t q Hq. by apply Hp', Hp.
Qed.

Lemma page_targets_requests (this : loc) (s s' : State) :
  page_requests_only s s' -> page_targets this s' = page_targets this s.
Proof.
  intros (_ & Ht & _ & _ & Hi & Ho & _). unfold page_targets.
  rewrite Ht.
  erewrite List.filter_ext; [| intros t; by rewrite Hi].
  f_equal. apply List.filter_ext. intros t. by rewrite Ho.
Qed.

Lemma page_targets_In (this t : loc) (s : State) :
  In t (page_targets this s) <->
  In t (JsMap.values (_targets s)) /\
  _browserContext (targets_heap s !!! t) = this /\
  type (_targetInfo (targets_heap s !!! t)) = "page"%string.
Proof.
  unfold page_targets. rewrite !List.filter_In, Nat.eqb_eq, String.eqb_eq.
  tauto.
Qed.

(** One call of [page()]: it changes at most the target it is called on,
    answers the promise that target holds afterwards, and that is a promise
    when the target has type "page". *)
Lemma Target_page_requests (target : loc) (s : State) :
  let r := Target.page target s in
  page_requests_only s r.2 /\
  (forall t, t ≠ target -> targets_heap r.2 !! t = targets_heap s !! t) /\
  r.1 = Ok (_pagePromise (targets_heap r.2 !!! target)) /\
  (type (_targetInfo (targets_heap s !!! target)) = "page"%string ->
   is_Some (_pagePromise (targets_heap r.2 !!! target))).
Proof.
  unfold Target.page, Target.set_pagePromise. run.
  rewrite (lookup_total_alt (targets_heap s)).
  destruct (targets_heap s !! target) as [o|] eqn:Ho; simpl.
  - destruct (String.eqb (type (_targetInfo o)) "page") eqn:Htype; simpl.
    + destruct (_pagePromise o) as [q|] eqn:Hq; simpl.
      * rewrite lookup_total_alt, Ho. simpl. rewrite Hq.
        split; [apply page_requests_only_refl |].
        split; [done |]. split; [done |]. by eexists.
      * rewrite lookup_total_alt, lookup_alter_eq, Ho. simpl.
        split; [| split; [| split; [done | by eexists]]].
        -- repeat split; simpl; try done.
           ++ intros t. rewrite !lookup_total_alt.
              destruct (decide (target = t)) as [<- | Hne].
              ** by rewrite lookup_alter_eq, Ho.
              ** by rewrite lookup_alter_ne.
           ++ intros t. rewrite !lookup_total_alt.
              destruct (decide (target = t)) as [<- | Hne].
              ** by rewrite lookup_alter_eq, Ho.
              ** by rewrite lookup_alter_ne.
           ++ intros t q. rewrite !lookup_total_alt.
              destruct (decide (target = t)) as [<- | Hne].
              ** rewrite Ho. simpl. congruence.
              ** by rewrite lookup_alter_ne.
        -- intros t Ht. by rewrite lookup_alter_ne.
    + rewrite lookup_total_alt, Ho. simpl.
      split; [apply page_requests_only_refl |].
      split; [done |]. split; [done |].
      intros Hpage. rewrite Hpage in Htype. discriminate.
  - rewrite lookup_total_alt, Ho. simpl.
    split; [apply page_requests_only_refl |].
    split; [done |]. split; [done |]. discriminate.
Qed.

Lemma Array_map_cons {A B} (f : A -> M B) (x : A) (xs : list A) (s : State) :
  Array_map f (x :: xs) s
    = match f x s with
      | (Ok y, s1) =>
          match Array_map f xs s1 with
          | (Ok ys, s2) => (Ok (y :: ys), s2)
          | (Err e, s2) => (Err e, s2)
          end
      | (Err e, s1) => (Err e, s1)
      end.
Proof. reflexivity. Qed.

(** [page()] of every target of a list of page targets. *)
Lemma Array_map_page_requests (ts : list loc) (s : State) :
  Forall (fun t => type (_targetInfo (targets_heap s !!! t)) = "page"%string)
    ts ->
  let r := Array_map Target.page ts s in
  page_requests_only s r.2 /\
  (forall t, ~ In t ts -> targets_heap r.2 !! t = targets_heap s !! t) /\
  r.1 = Ok (List.map (fun t => _pagePromise (targets_heap r.2 !!! t)) ts) /\
  Forall (fun t => is_Some (_pagePromise (targets_heap r.2 !!! t))) ts.
Proof.
  revert s. induction ts as [|t ts IH]; intros s Htypes.
  - simpl. split; [apply page_requests_only_refl |]. by repeat split.
  - apply Forall_cons in Htypes as [Htype Htypes].
    rewrite Array_map_cons.
    destruct (Target_page_requests t s) as (Hreq & Hother & Hres & Hsome).
    destruct (Target.page t s) as [r1 s1]. simpl in Hreq, Hother, Hres, Hsome.
    subst r1. specialize (Hsome Htype).
    assert (Forall
      (fun t => type (_targetInfo (targets_heap s1 !!! t)) = "page"%string)
      ts) as Htypes1.
    { destruct Hreq as (_ & _ & _ & _ & Hi & _).
      eapply Forall_impl; [exact Htypes |]. intros t0. by rewrite Hi. }
    destruct (IH s1 Htypes1) as (Hreq' & Hother' & Hres' & Hsome').
    destruct (Array_map Target.page ts s1) as [r2 s2].
    simpl in Hreq', Hother', Hres', Hsome'. subst r2. simpl.
    assert (_pagePromise (targets_heap s2 !!! t)
            = _pagePromise (targets_heap s1 !!! t)) as Hkept.
    { destruct Hsome as [q Hq]. rewrite Hq.
      destruct Hreq' as (_ & _ & _ & _ & _ & _ & Hp). by apply Hp. }
    split; [by eapply page_requests_only_trans |].
    split; [| split].
    + intros t0 Ht0. rewrite Hother'; [apply Hother |]; intros ?; apply Ht0.
      * subst. by left.
      * by right.
    + by rewrite Hkept.
    + apply Forall_cons. split; [by rewrite Hkept | done].
Qed.

(** Targets that hold their promises answer [page()] with them. *)
Lemma Array_map_page_cached (ts : list loc) (s : State) :
  Forall (fun t => is_Some (_pagePromise (targets_heap s !!! t))) ts ->
  Array_map Target.page ts s
    = (Ok (List.map (fun t => _pagePromise (targets_heap s !!! t)) ts), s).
Proof.
  induction ts as [|t ts IH]; intros Hsome; [done |].
  apply Forall_cons in Hsome as [[q Hq] Hsome].
  rewrite Array_map_cons, (Target_page_cached t q s Hq), (IH Hsome).
  simpl. by rewrite Hq.
Qed.

Lemma BrowserContext_pages_run (this : loc) (s : State) :
  BrowserContext_pages this s
    = match Array_map Target.page (page_targets this s) s with
      | (Ok promises, s') =>
          (Ok {| awaited := promises; and_then := omap id |}, s')
      | (Err e, s') => (Err e, s')
      end.
Proof.
  unfold BrowserContext_pages, BrowserContext.targets, Browser.targets,
    page_targets.
  unfold bind, gets, ret. simpl.
  by destruct (Array_map Target.page _ s) as [[?|?] ?].
Qed.

Lemma page_targets_typed (this : loc) (s : State) :
  Forall (fun t => type (_targetInfo (targets_heap s !!! t)) = "page"%string)
    (page_targets this s).
Proof.
  apply List.Forall_forall. intros t Ht.
  by apply page_targets_In in Ht as (_ & _ & Ht).
Qed.

Lemma omap_id_Some {A} (xs : list A) : omap id (Some <$> xs) = xs.
Proof.
  induction xs as [|x xs IH]; [done |].
  rewrite fmap_cons. simpl. f_equal. exact IH.
Qed.

(** All promises fulfilled: the call resumes with their pages. *)
Lemma resume_all_fulfilled (promises : list (option nat))
    (pages : list loc) (s : State) :
  Forall2
    (fun promise page =>
       exists p, promise = Some p /\
                 page_promises s !! p = Some (Fulfilled page))
    promises pages ->
  resume_all {| awaited := promises; and_then := omap id |} AllFulfilled s
    = Some (Ok pages).
Proof.
  intros Hall. unfold resume_all. simpl.
  assert (mapM (fulfilled_with s) promises = Some (Some <$> pages)) as ->.
  { induction Hall as [|promise page promises pages (p & -> & Hp) _ IH];
      [done |].
    simpl. rewrite Hp. simpl. by rewrite IH. }
  change (Some (Ok (omap id (Some <$> pages))) = Some (Ok pages)).
  by rewrite omap_id_Some.
Qed.

(** X15.  [pages()] of a context requests the page of each of its targets
    of type "page", in the order of the registry, and of no other target:
    every such target holds a promise afterwards, the registry and all other
    target objects are unchanged.  A second call requests nothing new: it
    awaits the same promises and leaves the state as it is.  When all the
    promises are fulfilled the call resolves to their pages in that order,
    and a rejected promise rejects it with its error. *)
Theorem BrowserContext_pages_requests (this : loc) (s : State) :
  let call := BrowserContext_pages this s in
  let promises :=
    List.map (fun t => _pagePromise (targets_heap call.2 !!! t))
      (page_targets this s) in
  call.1 = Ok {| awaited := promises; and_then := omap id |} /\
  Forall is_Some promises /\
  _targets call.2 = _targets s /\
  (forall t,
     ~ In t (page_targets this s) ->
     targets_heap call.2 !! t = targets_heap s !! t) /\
  BrowserContext_pages this call.2 = (call.1, call.2) /\
  (forall s3 pages,
     Forall2
       (fun promise page =>
          exists p, promise = Some p /\
                    page_promises s3 !! p = Some (Fulfilled page))
       promises pages ->
     resume_all {| awaited := promises; and_then := omap id |}
       AllFulfilled s3 = Some (Ok pages)) /\
  (forall s3 (i p : nat) e,
     promises !! i = Some (Some p) ->
     page_promises s3 !! p = Some (Rejected e) ->
     resume_all {| awaited := promises; and_then := omap id |}
       (OneRejected i) s3 = Some (Err e)).
Proof.
  intros call promises. subst call promises.
  rewrite BrowserContext_pages_run.
  destruct (Array_map_page_requests (page_targets this s) s
              (page_targets_typed this s))
    as (Hreq & Hother & Hres & Hsome).
  destruct (Array_map Target.page (page_targets this s) s) as [r s'].
  simpl in Hreq, Hother, Hres, Hsome. subst r. cbn [fst snd].
  split; [done |].
  split.
  { apply List.Forall_forall. intros promise Hin.
    apply List.in_map_iff in Hin as (t & <- & Ht).
    revert t Ht. by apply List.Forall_forall. }
  split; [by destruct Hreq as (_ & -> & _) |].
  split; [done |]. split; [| split].
  - rewrite BrowserContext_pages_run, (page_targets_requests this s s' Hreq).
    by rewrite (Array_map_page_cached _ _ Hsome).
  - intros s3 pages. apply resume_all_fulfilled.
  - intros s3 i p e Hi Hp. unfold resume_all. cbn [awaited].
    by rewrite Hi, Hp.
Qed.

Lemma BrowserContext_pages_requests_witness :
  let call := BrowserContext_pages 0%nat browser_with_A_B in
  let promises :=
    List.map (fun t => _pagePromise (targets_heap call.2 !!! t))
      (page_targets 0%nat browser_with_A_B) in
  promises = [Some 0%nat; Some 1%nat] /\
  resume_all {| awaited := promises; and_then := omap id |} AllFulfilled
    (page_materialized 1%nat "B" 1%nat call.2)
    = Some (Ok [0%nat; 1%nat]).
Proof.
  intros call promises.
  assert (promises = [Some 0%nat; Some 1%nat]) as Hpromises
    by (vm_compute; reflexivity).
  split; [exact Hpromises |].
  destruct (BrowserContext_pages_requests 0%nat browser_with_A_B)
    as (_ & _ & _ & _ & _ & Hall & _).
  apply Hall. fold call. fold promises. rewrite Hpromises.
  constructor; [| constructor; [| constructor]].
  - exists 0%nat. split; [reflexivity | vm_compute; reflexivity].
  - exists 1%nat. split; [reflexivity | vm_compute; reflexivity].
Defined.

(** [pages()] of each context of a list, one after the other. *)
Lemma Array_map_pages_requests (contexts : list loc) (s : State) :
  let r := Array_map BrowserContext_pages contexts s in
  page_requests_only s r.2 /\
  r.1 = Ok (List.map
              (fun c =>
                 {| awaited :=
                      List.map
                        (fun t => _pagePromise (targets_heap r.2 !!! t))
                        (page_targets c s);
                    and_then := omap id |})
              contexts) /\
  (forall t,
     (forall c, In c contexts -> ~ In t (page_targets c s)) ->
     targets_heap r.2 !! t = targets_heap s !! t) /\
  (forall c t,
     In c contexts -> In t (page_targets c s) ->
     is_Some (_pagePromise (targets_heap r.2 !!! t))).
Proof.
  revert s. induction contexts as [|c cs IH]; intros s.
  - simpl. split; [apply page_requests_only_refl |].
    split; [done |]. split; [done |]. by intros c t [].
  - rewrite Array_map_cons, BrowserContext_pages_run.
    destruct (Array_map_page_requests (page_targets c s) s
                (page_targets_typed c s))
      as (Hreq & Hother & Hres & Hsome).
    destruct (Array_map Target.page (page_targets c s) s) as [r1 s1].
    simpl in Hreq, Hother, Hres, Hsome. subst r1.
    destruct (IH s1) as (Hreq' & Hres' & Hother' & Hsome').
    destruct (Array_map BrowserContext_pages cs s1) as [r2 s2].
    simpl in Hreq', Hres', Hother', Hsome'. subst r2. cbn [fst snd].
    assert (forall t,
      is_Some (_pagePromise (targets_heap s1 !!! t)) ->
      _pagePromise (targets_heap s2 !!! t)
        = _pagePromise (targets_heap s1 !!! t)) as Hkept.
    { intros t [q Hq]. rewrite Hq.
      destruct Hreq' as (_ & _ & _ & _ & _ & _ & Hp). by apply Hp. }
    split; [by eapply page_requests_only_trans |].
    split; [| split].
    + simpl. do 2 f_equal.
      * f_equal. apply List.map_ext_in. intros t Ht. symmetry.
        apply Hkept. revert t Ht. by apply List.Forall_forall.
      * apply List.map_ext. intros c'.
        by rewrite (page_targets_requests c' s s1 Hreq).
    + intros t Ht. rewrite Hother'.
      * apply Hother. apply Ht. by left.
      * intros c' Hc'. rewrite (page_targets_requests c' s s1 Hreq).
        apply Ht. by right.
    + intros c' t [<- | Hc'] Ht.
      * assert (is_Some (_pagePromise (targets_heap s1 !!! t))) as Hs1.
        { revert t Ht. by apply List.Forall_forall. }
        by rewrite (Hkept t Hs1).
      * apply (Hsome' c' t Hc').
        by rewrite (page_targets_requests c' s s1 Hreq).
Qed.

Lemma mapM_option_cons {A B} (f : A -> option B) (x : A) (xs : list A) :
  mapM f (x :: xs) = y ← f x; ys ← mapM f xs; Some (y :: ys).
Proof. reflexivity. Qed.

Lemma foldl_concat {A} (acc : list A) (xs : list (list A)) :
  foldl (fun acc x => acc ++ x) acc xs = acc ++ concat xs.
Proof.
  revert acc. induction xs as [|x xs IH]; intros acc; simpl.
  - by rewrite app_nil_r.
  - by rewrite IH, app_assoc.
Qed.

(** X16.  [Browser.pages()] calls [pages()] of the default context and of
    every created context, in the order of [browserContexts()].  Every
    registered target of type "page" that belongs to one of these contexts
    holds a page promise afterwards.  A target that belongs to no listed
    context -- the context was disposed -- has no page requested and is not
    awaited, like a target of another type: its object is unchanged.  When
    every requested page is there, the call resolves to the pages of the
    contexts, concatenated in the order of the contexts and, within a
    context, of the registry. *)
Theorem Browser_pages_requests (s : State) :
  let call := Browser_pages s in
  let listed := _defaultContext s :: JsMap.values (_contexts s) in
  let calls :=
    List.map
      (fun c =>
         {| awaited :=
              List.map (fun t => _pagePromise (targets_heap call.2 !!! t))
                (page_targets c s);
            and_then := omap id |})
      listed in
  call.1 = Ok calls /\
  _targets call.2 = _targets s /\
  (forall t,
     In t (JsMap.values (_targets s)) ->
     type (_targetInfo (targets_heap s !!! t)) = "page"%string ->
     In (_browserContext (targets_heap s !!! t)) listed ->
     is_Some (_pagePromise (targets_heap call.2 !!! t))) /\
  (forall t,
     ~ In (_browserContext (targets_heap s !!! t)) listed \/
     type (_targetInfo (targets_heap s !!! t)) ≠ "page"%string \/
     ~ In t (JsMap.values (_targets s)) ->
     targets_heap call.2 !! t = targets_heap s !! t) /\
  (forall (page_of : loc -> loc) s3,
     (forall c t p,
        In c listed -> In t (page_targets c s) ->
        _pagePromise (targets_heap call.2 !!! t) = Some p ->
        page_promises s3 !! p = Some (Fulfilled (page_of t))) ->
     Browser_pages_resolve calls s3
       = Some (concat
                 (List.map (fun c => List.map page_of (page_targets c s))
                    listed))).
Proof.
  intros call listed calls.
  assert (call = Array_map BrowserContext_pages listed s) as Hcall
    by reflexivity.
  destruct (Array_map_pages_requests listed s)
    as (Hreq & Hres & Hother & Hsome).
  rewrite <- Hcall in Hreq, Hres, Hother, Hsome.
  split; [done |].
  split; [by destruct Hreq as (_ & -> & _) |].
  split; [| split].
  - intros t Hin Htype Howner.
    apply (Hsome (_browserContext (targets_heap s !!! t)) t Howner).
    by apply page_targets_In.
  - intros t Ht. apply Hother. intros c Hc Hin.
    apply page_targets_In in Hin as (Hreg & Howner & Htype).
    destruct Ht as [Ht | [Ht | Ht]]; [| done | done].
    apply Ht. by rewrite Howner.
  - intros page_of s3 Hfulfilled. unfold Browser_pages_resolve.
    assert (mapM
              (fun call0 : AwaitAll (list loc) =>
                 match resume_all call0 AllFulfilled s3 with
                 | Some (Ok pages) => Some pages
                 | _ => None
                 end) calls
            = Some (List.map (fun c => List.map page_of (page_targets c s))
                      listed)) as ->.
    { subst calls. clear Hcall Hres Hother Hreq.
      induction listed as [|c cs IH]; [done |].
      cbn [List.map]. rewrite mapM_option_cons.
      rewrite (resume_all_fulfilled _
                 (List.map page_of (page_targets c s))).
      - cbn [mbind option_bind]. rewrite IH; [done | |].
        + intros c' t Hc'. apply Hsome. by right.
        + intros c' t p Hc'. apply Hfulfilled. by right.
      - assert (forall t, In t (page_targets c s) ->
          exists p, _pagePromise (targets_heap call.2 !!! t) = Some p /\
                    page_promises s3 !! p = Some (Fulfilled (page_of t)))
          as Hc.
        { intros t Ht. destruct (Hsome c t) as [p Hp]; [by left | done |].
          exists p. split; [done |].
          apply (Hfulfilled c t p); [by left | done | done]. }
        clear -Hc. induction (page_targets c s) as [|t ts IHts];
          [constructor |].
        simpl. constructor.
        + apply Hc. by left.
        + apply IHts. intros t' Ht'. apply Hc. by right. }
    simpl. by rewrite foldl_concat.
Qed.

Lemma Browser_pages_requests_witness :
  let call := Browser_pages browser_with_A_B in
  exists calls,
    call.1 = Ok calls /\
    Browser_pages_resolve calls (page_materialized 1%nat "B" 1%nat call.2)
      = Some [0%nat; 1%nat].
Proof.
  intros call.
  destruct (Browser_pages_requests browser_with_A_B)
    as (Hcalls & _ & _ & _ & Hresolve).
  subst call. eexists. split; [exact Hcalls |].
  rewrite (Hresolve (fun t => t)
             (page_materialized 1%nat "B" 1%nat
                (Browser_pages browser_with_A_B).2)).
  - vm_compute. reflexivity.
  - intros c t p Hc Ht Hp.
    vm_compute in Hc. destruct Hc as [<- | []].
    vm_compute in Ht. destruct Ht as [<- | [<- | []]].
    + assert (p = 0%nat) as ->
        by (vm_compute in Hp; congruence).
      vm_compute. reflexivity.
    + assert (p = 1%nat) as ->
        by (vm_compute in Hp; congruence).
      vm_compute. reflexivity.
Defined.

(** ** Waits, continued *)

Lemma find_first {A} (f : A -> bool) (l : list A) (x : A) :
  List.find f l = Some x ->
  exists before after,
    l = before ++ x :: after /\
    f x = true /\
    Forall (fun y => f y = false) before.
Proof.
  induction l as [|y l IH]; simpl; [done |].
  destruct (f y) eqn:Hy.
  - intros [= ->]. by exists [], l.
  - intros Hfind. destruct (IH Hfind) as (before & after & -> & Hx & Hb).
    exists (y :: before), after. split; [done |]. split; [done |].
    by apply Forall_cons.
Qed.

(** X17.  When [waitForTarget] settles at once, it answers the matching
    target that was registered first: no target registered before it
    satisfies the predicate.  The call registers no listener and creates no
    promise: the state is unchanged. *)
Theorem waitForTarget_earliest_match (Events : EventsTable)
    (predicate : loc -> TargetObj -> bool) (options : option Options)
    (r : Result loc) (s : State) :
  (Browser.waitForTarget Events predicate options s).1 = Settled r ->
  exists target before after,
    r = Ok target /\
    JsMap.values (_targets s) = before ++ target :: after /\
    predicate target (targets_heap s !!! target) = true /\
    Forall (fun t => predicate t (targets_heap s !!! t) = false) before /\
    (Browser.waitForTarget Events predicate options s).2 = s.
Proof.
  destruct (List.find (fun t => predicate t (targets_heap s !!! t))
              (JsMap.values (_targets s))) as [existing|] eqn:Hfind.
  - rewrite (waitForTarget_existing Events predicate options existing s Hfind).
    intros [= <-].
    destruct (find_first _ _ _ Hfind) as (before & after & Hl & Hx & Hb).
    by exists existing, before, after.
  - destruct (waitForTarget_body Events predicate options s Hfind)
      as (k & -> & _).
    cbn [fst]. unfold suspension. by destruct (Z.eqb _ 0).
Qed.

Lemma waitForTarget_earliest_match_witness :
  exists target before after,
    Ok 0%nat = Ok target /\
    JsMap.values (_targets browser_with_A_B) = before ++ target :: after /\
    has_page target (targets_heap browser_with_A_B !!! target) = true /\
    Forall
      (fun t => has_page t (targets_heap browser_with_A_B !!! t) = false)
      before /\
    (Browser.waitForTarget example_events has_page None browser_with_A_B).2
      = browser_with_A_B.
Proof.
  apply (waitForTarget_earliest_match example_events has_page None
           (Ok 0%nat) browser_with_A_B).
  vm_compute. reflexivity.
Defined.

Lemma check_promise_steps (l : Listener) (target : loc) (p : nat)
    (s : State) :
  target_promises (EventEmitter.check l target s) !! p
    = target_promises s !! p \/
  (target_promises s !! p = Some Pending /\
   target_promises (EventEmitter.check l target s) !! p
     = Some (Fulfilled target)).
Proof.
  unfold EventEmitter.check, EventEmitter.resolve.
  destruct (check_predicate l target _); [| by left].
  destruct (target_promises s !! check_resolve l) as [[| |]|] eqn:E;
    try by left.
  simpl. destruct (decide (check_resolve l = p)) as [<- | Hne].
  - right. split; [done | apply lookup_insert_eq].
  - left. by rewrite lookup_insert_ne.
Qed.

Lemma notify_promise_steps (target : loc) (ls : list Listener) (p : nat)
    (s : State) :
  target_promises (notify target ls s) !! p = target_promises s !! p \/
  (target_promises s !! p = Some Pending /\
   target_promises (notify target ls s) !! p = Some (Fulfilled target)).
Proof.
  revert s. induction ls as [|l ls IH]; intros s; [by left |].
  simpl.
  destruct (check_promise_steps l target p s) as [Hsame | [Hp Hnow]].
  - destruct (IH (EventEmitter.check l target s)) as [-> | [Hp ->]].
    + by left.
    + right. by rewrite <- Hsame.
  - right. split; [done |]. by apply notify_fulfilled_stays.
Qed.

(** X18.  [_onTargetChanged] never fails and only notifies: it emits the
    event on the [Browser] and then on the context that owns the target,
    both under the name [Events.BrowserContext.TargetChanged].  It changes
    neither the registries nor any target, context or listener; and the
    promise of a wait is either left as it is or, if it was pending, is
    fulfilled with the changed target. *)
Theorem onTargetChanged_only_notifies (Events : EventsTable) (target : loc)
    (s : State) :
  let handler := Browser._onTargetChanged Events target in
  (handler s).1 = Ok tt /\
  performs handler s
    = [OpEmit OnBrowser (TargetChanged (Events_BrowserContext Events)) target;
       OpEmit (OnContext (_browserContext (targets_heap s !!! target)))
         (TargetChanged (Events_BrowserContext Events)) target] /\
  _targets (handler s).2 = _targets s /\
  targets_heap (handler s).2 = targets_heap s /\
  _contexts (handler s).2 = _contexts s /\
  contexts_heap (handler s).2 = contexts_heap s /\
  _events (handler s).2 = _events s /\
  page_promises (handler s).2 = page_promises s /\
  (forall p,
     target_promises (handler s).2 !! p = target_promises s !! p \/
     (target_promises s !! p = Some Pending /\
      target_promises (handler s).2 !! p = Some (Fulfilled target))).
Proof.
  intros handler.
  destruct (onTargetChanged_state Events target s) as [tp Hstate].
  fold handler in Hstate.
  split; [subst handler; by rewrite onTargetChanged_run |].
  split.
  { unfold performs. rewrite Hstate. simpl. by rewrite drop_app_length. }
  rewrite Hstate. simpl. repeat (split; [done |]).
  intros p. rewrite <- (f_equal target_promises Hstate : _ = tp).
  subst handler. rewrite onTargetChanged_run. cbn [snd].
  rewrite emit_notify. cbn [snd].
  change (target_promises (set_trace ?f ?x)) with (target_promises x).
  apply (notify_promise_steps target _ p
           (set_trace
              (fun t => t ++
                 [OpEmit OnBrowser
                    (TargetChanged (Events_BrowserContext Events)) target])
              s)).
Qed.

Lemma attached_subscribe_ne (Events : EventsTable) (check : Listener)
    (q : nat) (event : string) (s : State) :
  q ≠ check_resolve check ->
  attached q event (subscribe Events check s).2 = attached q event s.
Proof.
  intros Hne. rewrite subscribe_steps. unfold attached.
  assert (count_id q [check] = 0%nat) as Hzero.
  { unfold count_id. simpl.
    by assert (Nat.eqb (check_resolve check) q = false) as ->
      by (apply Nat.eqb_neq; congruence). }
  rewrite listeners_on.
  case_decide; rewrite ?count_id_app, listeners_on;
    case_decide; rewrite ?count_id_app, ?Hzero; lia.
Qed.

(** X19.  Two waits that are pending at the same time do not disturb each
    other.  Their closures have different identities, and the second call
    leaves the closure of the first attached as it was.  From any later
    state in which the closure of a wait is attached as its call attached
    it, every way that wait settles -- by a target, by its timeout or by
    any other outcome -- removes its own closure from every event and
    leaves the closure of the other wait attached exactly as often as
    before.  This holds for either wait settling first; and once both have
    settled, one after the other, no closure of either is attached to any
    event. *)
Theorem concurrent_waits_keep_their_listeners (Events : EventsTable)
    (predicate1 predicate2 : loc -> TargetObj -> bool)
    (options1 options2 : option Options) (s : State) :
  listeners_known s ->
  no_existing_target predicate1 s ->
  let call1 := Browser.waitForTarget Events predicate1 options1 s in
  no_existing_target predicate2 call1.2 ->
  let call2 := Browser.waitForTarget Events predicate2 options2 call1.2 in
  let p1 := fresh (dom (target_promises s)) in
  let p2 := fresh (dom (target_promises call1.2)) in
  p1 ≠ p2 /\
  (forall event, attached p1 event call2.2 = attached p1 event call1.2) /\
  (1 <= attached p1 (TargetCreated (Events_Browser Events)) call2.2)%nat /\
  (1 <= attached p1 (TargetChanged (Events_Browser Events)) call2.2)%nat /\
  (1 <= attached p2 (TargetCreated (Events_Browser Events)) call2.2)%nat /\
  (1 <= attached p2 (TargetChanged (Events_Browser Events)) call2.2)%nat /\
  (forall w s' out,
     (forall event, attached p1 event s' = attached p1 event call2.2) ->
     resume call1.1 w s' = Some out ->
     (exists r, out.1 = Settled r) /\
     (forall event, attached p1 event out.2 = 0%nat) /\
     (forall event, attached p2 event out.2 = attached p2 event s')) /\
  (forall w s' out,
     (forall event, attached p2 event s' = attached p2 event call2.2) ->
     resume call2.1 w s' = Some out ->
     (exists r, out.1 = Settled r) /\
     (forall event, attached p2 event out.2 = 0%nat) /\
     (forall event, attached p1 event out.2 = attached p1 event s')) /\
  (forall w1 s1 out1 w2 s2 out2,
     (forall event, attached p1 event s1 = attached p1 event call2.2) ->
     resume call1.1 w1 s1 = Some out1 ->
     (forall event, attached p1 event s2 = attached p1 event out1.2) ->
     (forall event, attached p2 event s2 = attached p2 event call2.2) ->
     resume call2.1 w2 s2 = Some out2 ->
     forall event,
       attached p1 event out2.2 = 0%nat /\
       attached p2 event out2.2 = 0%nat).
Proof.
  intros Hknown Hnone1 call1 Hnone2 call2 p1 p2.
  destruct (waitForTarget_body Events predicate1 options1 s Hnone1)
    as (k1 & Hcall1 & Hk1).
  fold call1 p1 in Hcall1. fold p1 in Hk1.
  set (check1 := {| check_resolve := p1; check_predicate := predicate1 |})
    in Hcall1, Hk1.
  destruct (waitForTarget_body Events predicate2 options2 call1.2 Hnone2)
    as (k2 & Hcall2 & Hk2).
  fold call2 p2 in Hcall2. fold p2 in Hk2.
  set (check2 := {| check_resolve := p2; check_predicate := predicate2 |})
    in Hcall2, Hk2.
  assert (listeners_known call1.2) as Hknown1
    by (by apply waitForTarget_keeps_listeners_known).
  assert (p1 ∈ dom (target_promises call1.2)) as Hp1.
  { rewrite Hcall1. cbn [snd]. rewrite subscribe_steps.
    rewrite !on_target_promises. simpl. rewrite dom_insert_L.
    apply elem_of_union_l. by apply elem_of_singleton. }
  assert (p1 ≠ p2) as Hne.
  { intros Heq. apply (is_fresh (dom (target_promises call1.2))).
    fold p2. by rewrite <- Heq. }
  assert (forall event,
    attached p1 event call1.2
      = ((if decide (TargetCreated (Events_Browser Events) = event)
          then 1 else 0)
         + (if decide (TargetChanged (Events_Browser Events) = event)
            then 1 else 0))%nat) as Hp1_first.
  { intros event. rewrite Hcall1. cbn [snd].
    change (attached p1 event)
      with (attached (check_resolve check1) event).
    rewrite (attached_subscribe Events check1 event).
    change (attached (check_resolve check1) event
              (set_target_promises ?f ?x))
      with (attached p1 event x).
    unfold p1. by rewrite attached_fresh. }
  assert (forall event,
    attached p1 event call2.2 = attached p1 event call1.2) as Hp1_kept.
  { intros event. rewrite Hcall2. cbn [snd].
    by rewrite (attached_subscribe_ne Events check2 p1). }
  assert (forall event,
    attached p2 event call2.2
      = ((if decide (TargetCreated (Events_Browser Events) = event)
          then 1 else 0)
         + (if decide (TargetChanged (Events_Browser Events) = event)
            then 1 else 0))%nat) as Hp2_second.
  { intros event. rewrite Hcall2. cbn [snd].
    change (attached p2 event)
      with (attached (check_resolve check2) event).
    rewrite (attached_subscribe Events check2 event).
    change (attached (check_resolve check2) event
              (set_target_promises ?f ?x))
      with (attached p2 event x).
    unfold p2. by rewrite attached_fresh. }
  assert (forall w s' out,
    (forall event, attached p1 event s' = attached p1 event call2.2) ->
    resume call1.1 w s' = Some out ->
    (exists r, out.1 = Settled r) /\
    (forall event, attached p1 event out.2 = 0%nat) /\
    (forall event, attached p2 event out.2 = attached p2 event s'))
    as Hfirst.
  { intros w s' out Hframe Hout.
    rewrite Hcall1 in Hout. cbn [fst] in Hout.
    apply resume_suspension in Hout as [r ->].
    rewrite Hk1. cbn [fst snd].
    split; [by eexists |]. split.
    - intros event.
      change (attached p1 event)
        with (attached (check_resolve check1) event).
      rewrite (attached_unsubscribe Events check1 event s').
      change (attached (check_resolve check1) event)
        with (attached p1 event).
      rewrite Hframe, Hp1_kept, Hp1_first.
      repeat case_decide; reflexivity.
    - intros event. apply (attached_unsubscribe_ne Events check1).
      simpl. congruence. }
  assert (forall w s' out,
    (forall event, attached p2 event s' = attached p2 event call2.2) ->
    resume call2.1 w s' = Some out ->
    (exists r, out.1 = Settled r) /\
    (forall event, attached p2 event out.2 = 0%nat) /\
    (forall event, attached p1 event out.2 = attached p1 event s'))
    as Hsecond.
  { intros w s' out Hframe Hout.
    rewrite Hcall2 in Hout. cbn [fst] in Hout.
    apply resume_suspension in Hout as [r ->].
    rewrite Hk2. cbn [fst snd].
    split; [by eexists |]. split.
    - intros event.
      change (attached p2 event)
        with (attached (check_resolve check2) event).
      rewrite (attached_unsubscribe Events check2 event s').
      change (attached (check_resolve check2) event)
        with (attached p2 event).
      rewrite Hframe, Hp2_second.
      repeat case_decide; reflexivity.
    - intros event. by apply (attached_unsubscribe_ne Events check2). }
  split; [done |]. split; [done |].
  split; [rewrite Hp1_kept, Hp1_first; rewrite decide_True by done; lia |].
  split; [rewrite Hp1_kept, Hp1_first;
          rewrite (decide_True (P := TargetChanged _ = TargetChanged _))
            by done; lia |].
  split; [rewrite Hp2_second; rewrite decide_True by done; lia |].
  split; [rewrite Hp2_second;
          rewrite (decide_True (P := TargetChanged _ = TargetChanged _))
            by done; lia |].
  split; [done |]. split; [done |].
  intros w1 s1 out1 w2 s2 out2 Hframe1 Hout1 Hkept1 Hframe2 Hout2 event.
  destruct (Hfirst w1 s1 out1 Hframe1 Hout1) as (_ & Hzero1 & _).
  destruct (Hsecond w2 s2 out2 Hframe2 Hout2) as (_ & Hzero2 & Hother).
  split; [| done].
  by rewrite Hother, Hkept1.
Qed.

Lemma concurrent_waits_keep_their_listeners_witness :
  let call1 :=
    Browser.waitForTarget example_events (fun _ _ => true) None
      Browser.new in
  let call2 :=
    Browser.waitForTarget example_events has_page None call1.2 in
  let p1 := fresh (dom (target_promises Browser.new)) in
  let p2 := fresh (dom (target_promises call1.2)) in
  let later :=
    (Browser._onTargetCreated example_events
       {| targetId := "A"; browserContextId := None; type := "page" |}
       call2.2).2 in
  exists out,
    resume call1.1 PromiseSettled later = Some out /\
    out.1 = Settled (Ok 0%nat) /\
    (forall event, attached p1 event out.2 = 0%nat) /\
    attached p2 "targetcreated" out.2 = 1%nat /\
    attached p2 "targetchanged" out.2 = 1%nat /\
    target_promises out.2 !! p2 = Some Pending.
Proof.
  intros call1 call2 p1 p2 later.
  assert (no_existing_target (fun _ _ => true) Browser.new) as Hnone1
    by (vm_compute; reflexivity).
  assert (no_existing_target has_page call1.2) as Hnone2
    by (vm_compute; reflexivity).
  destruct (concurrent_waits_keep_their_listeners example_events
              (fun _ _ => true) has_page None None Browser.new
              listeners_known_new Hnone1 Hnone2)
    as (_ & _ & _ & _ & _ & _ & Hfirst & _).
  fold call1 in Hfirst. fold call2 in Hfirst. fold p1 p2 in Hfirst.
  assert (forall q event, attached q event later = attached q event call2.2)
    as Hframe.
  { intros q event. apply attached_frame.
    apply (onTargetCreated_keeps_listeners example_events). }
  destruct (resume call1.1 PromiseSettled later) as [out|] eqn:Hout;
    [| vm_compute in Hout; discriminate].
  destruct (Hfirst PromiseSettled later out (Hframe p1) Hout)
    as (_ & Hzero & Hkept).
  exists out. split; [reflexivity |].
  split; [vm_compute in Hout; by injection Hout as <- |].
  split; [exact Hzero |].
  rewrite !Hkept, !Hframe.
  split; [vm_compute; reflexivity |].
  split; [vm_compute; reflexivity |].
  vm_compute in Hout. injection Hout as <-. vm_compute. reflexivity.
Defined.

(** ** New pages *)

(** X20.  [newPage] of the browser and [newPage] of a context differ only in
    the context id of the command they send.  In a browser whose contexts
    are consistent, [Browser.newPage] sends the create-page command without
    a context id and [newPage] of a context registered under [k] sends it
    with [k].  After that the context plays no role: both calls handle every
    reply alike, so the page they answer is that of the target the reply
    names, whichever context owns that target. *)
Theorem newPage_sends_context_id (k : string) (context : loc) (s : State) :
  contexts_consistent s ->
  JsMap.get k (_contexts s) = Some context ->
  let ofBrowser := Browser.newPage s in
  let ofContext := BrowserContext.newPage context s in
  (exists continuation,
     ofBrowser.1 = AwaitSend (Browser_createPage None) continuation) /\
  (exists continuation,
     ofContext.1 = AwaitSend (Browser_createPage (Some k)) continuation) /\
  ofBrowser.2
    = set_trace (fun t => t ++ [OpSend (Browser_createPage None)]) s /\
  ofContext.2
    = set_trace (fun t => t ++ [OpSend (Browser_createPage (Some k))]) s /\
  forall w s', resume ofContext.1 w s' = resume ofBrowser.1 w s'.
Proof.
  intros [Hdefault Hregistered] Hget ofBrowser ofContext.
  assert (_id (contexts_heap s !!! _defaultContext s) = None) as Hid.
  { by rewrite (lookup_total_correct _ _ _ Hdefault). }
  assert (_id (contexts_heap s !!! context) = Some k) as Hidk.
  { apply JsMap_get_entry in Hget.
    by rewrite (lookup_total_correct _ _ _ (Hregistered _ _ Hget)). }
  subst ofBrowser ofContext.
  unfold Browser.newPage, BrowserContext.newPage,
    Browser._createPageInContext.
  run. rewrite Hid, Hidk.
  split; [by eexists |]. split; [by eexists |].
  split; [done |]. split; [done |].
  intros w s'. by destruct w.
Qed.

Lemma newPage_sends_context_id_witness :
  exists continuation,
    (BrowserContext.newPage 1%nat browser_with_context).1
      = AwaitSend (Browser_createPage (Some "ctx-1"%string)) continuation.
Proof.
  assert (contexts_consistent browser_with_context) as Hconsistent.
  { split; [vm_compute; reflexivity |].
    intros k context Hin. vm_compute in Hin.
    destruct Hin as [[= <- <-] | []]. vm_compute. reflexivity. }
  destruct (newPage_sends_context_id "ctx-1" 1%nat browser_with_context
              Hconsistent) as (_ & Hcontext & _).
  { vm_compute. reflexivity. }
  exact Hcontext.
Defined.
